(** * Fireflies Copy Tools: the transcript formatter

    A shallow embedding of [formatTime] and [formatTranscript] from
    [fireflies-copy-tools.user.js] (lines 117-211), and the properties of
    the text they produce.

    Modelling conventions.
    - A JavaScript string is a [string]; each [ascii] stands for one UTF-16
      code unit below 256 (the Latin-1 range).  [is_white_space] lists the
      code units of that range that [String.prototype.trim] removes.
    - A JavaScript number that holds an integer is a [Z]; a time offset is
      an exact rational [Q], and the rounding of double-precision
      arithmetic is not modelled.  [Number_toString] is the decimal
      rendering that [String(n)], [n.toString()] and template literals give
      to an integer below 10^21 in absolute value.  Below [EXACT_BOUND],
      2^53, the numbers of the model are the numbers of the code: integers
      and [id + 1] are exact, [t / 60] and [t % 60] floor to the same
      integers, and the digits printed are all the digits.  The theorems
      that state arithmetic facts carry that bound.
    - A field of a parsed JSON object that may be missing or [null] is an
      [option]; [undefined] and [null] are both [None].
    - [speakerMeta] is an object used as a dictionary from strings to
      strings: a [gmap string string]. *)

From Stdlib Require Import ZArith QArith Qround Lia.
From Stdlib Require Import Ascii String DecimalString DecimalZ.
From stdpp Require Import base option list gmap strings.

Local Open Scope Z_scope.

(** ** JavaScript string primitives *)

(** The line feed written "\n" in the source. *)
Definition LF : string := String "010"%char EmptyString.

(** WhiteSpace and LineTerminator code units below 256: TAB, LF, VT, FF,
    CR, SP and NBSP. *)
Definition is_white_space (c : ascii) : bool :=
  match c with
  | "009" | "010" | "011" | "012" | "013" | " " | "160" => true
  | _ => false
  end%char.

(** A string is falsy exactly when it is empty. *)
Definition truthy (s : string) : bool :=
  match s with
  | EmptyString => false
  | String _ _ => true
  end.

(** Truthiness of a value that is [undefined], [null] or a string. *)
Definition truthy_opt (v : option string) : bool :=
  match v with
  | Some s => truthy s
  | None => false
  end.

(** [a || b] where [a] is [undefined], [null] or a string. *)
Definition or_else (a b : option string) : option string :=
  if truthy_opt a then a else b.

Fixpoint trimStart (s : string) : string :=
  match s with
  | EmptyString => EmptyString
  | String c r => if is_white_space c then trimStart r else s
  end.

Fixpoint trimEnd (s : string) : string :=
  match s with
  | EmptyString => EmptyString
  | String c r =>
      match trimEnd r with
      | EmptyString => if is_white_space c then EmptyString else String c EmptyString
      | String d r' => String c (String d r')
      end
  end.

Definition trim (s : string) : string := trimEnd (trimStart s).

(** [s.split(sep)[0]] for a one-character separator: the text before the
    first occurrence of [sep], the whole of [s] when there is none. *)
Fixpoint split_head (sep : ascii) (s : string) : string :=
  match s with
  | EmptyString => EmptyString
  | String c r => if Ascii.eqb c sep then EmptyString else String c (split_head sep r)
  end.

(** [n] characters of [padString] repeated, [cur] being what is left of the
    copy in progress. *)
Fixpoint pad_fill (padString cur : string) (n : nat) : string :=
  match n with
  | O => EmptyString
  | S n' =>
      match cur with
      | String c r => String c (pad_fill padString r n')
      | EmptyString =>
          match padString with
          | String c r => String c (pad_fill padString r n')
          | EmptyString => EmptyString
          end
      end
  end.

Definition padStart (targetLength : nat) (padString s : string) : string :=
  if (targetLength <=? String.length s)%nat then s
  else pad_fill padString padString (targetLength - String.length s) +:+ s.

(** Decimal rendering of an integer-valued number. *)
Definition Number_toString (n : Z) : string :=
  NilZero.string_of_int (Z.to_int n).

(** ** JavaScript number primitives *)

(** Rounding toward zero, as in the quotient of the [%] operator. *)
Definition Qtrunc (q : Q) : Z :=
  if Qle_bool 0 q then Qfloor q else Qceiling q.

(** [a % b]: the remainder takes the sign of the dividend. *)
Definition js_rem (a b : Q) : Q :=
  (a - b * inject_Z (Qtrunc (a / b)))%Q.

(** ** formatTime (lines 117-121) *)

Definition formatTime (totalSeconds : Q) : string :=
  let minutes := Qfloor (totalSeconds / 60) in
  let seconds := Qfloor (js_rem totalSeconds 60) in
  padStart 2 "0" (Number_toString minutes) +:+ ":" +:+
  padStart 2 "0" (Number_toString seconds).

(** ** Data model *)

(** One element of [meetingNote.captions]; [index] and [endTime] are
    fetched but never read by the formatter. *)
Record Caption := {
  sentence : string;
  speaker_id : Z;
  time : Q
}.

Record Attendee := {
  email : option string;
  name : option string;
  displayName : option string
}.

Record MeetingNote := {
  captions : option (list Caption);
  attendees : option (list Attendee);
  title : option string;
  date : option string;
  speakerMeta : option (gmap string string)
}.

(** ** formatTranscript (lines 123-211) *)

Definition MISSING_DATA : string :=
  "Error: Could not format transcript due to missing data.".

(** Lines 131-137: title and date. *)
Definition header_title (title date : option string) : string :=
  if truthy_opt title then
    let header := default "" title in
    if truthy_opt date then header +:+ " | " +:+ default "" date else header
  else "".

(** Lines 139-146: the meeting URL without its query string. *)
Definition header_url (header : string) (meetingUrl : option string) : string :=
  if truthy_opt meetingUrl then
    let cleanUrl := split_head "?" (default "" meetingUrl) in
    if truthy header then header +:+ LF +:+ cleanUrl else cleanUrl
  else header.

(** Lines 149-159: the callback given to [attendees.map]; [None] is the
    [null] it returns. *)
Definition attendee_line (attendee : Attendee) : option string :=
  let name := or_else (displayName attendee) (name attendee) in
  let email := email attendee in
  if truthy_opt name && truthy_opt email then
    Some (default "" name +:+ " " +:+ default "" email)
  else if truthy_opt name then name
  else if truthy_opt email then email
  else None.

(** [.filter(Boolean)] on an array of strings and [null]s. *)
Fixpoint filter_Boolean (l : list (option string)) : list string :=
  match l with
  | [] => []
  | Some s :: r => if truthy s then s :: filter_Boolean r else filter_Boolean r
  | None :: r => filter_Boolean r
  end.

(** Lines 148-169: the attendee block. *)
Definition header_attendees (header : string) (attendees : option (list Attendee)) : string :=
  match attendees with
  | Some (a :: l) =>
      let attendeesList := String.concat LF (filter_Boolean (map attendee_line (a :: l))) in
      if truthy attendeesList then
        if truthy header then header +:+ LF +:+ LF +:+ attendeesList else attendeesList
      else header
  | _ => header
  end.

Definition formatHeader (title date meetingUrl : option string)
    (attendees : option (list Attendee)) : string :=
  header_attendees (header_url (header_title title date) meetingUrl) attendees.

(** Lines 177-178: the speaker's display name. *)
Definition speakerName (speakerMeta : gmap string string) (currentSpeakerId : Z) : string :=
  let speakerNameKey := Number_toString (currentSpeakerId + 1) in
  let fallback := "Unknown Speaker " +:+ Number_toString (currentSpeakerId + 1) in
  match speakerMeta !! speakerNameKey with
  | Some n => if truthy n then n else fallback
  | None => fallback
  end.

(** The variables the caption loop updates (lines 171-173); [None] in
    [lastSpeakerId] is the initial [null]. *)
Record LoopState := {
  body : string;
  lastSpeakerId : option Z;
  currentSpeakerTextAccumulator : string
}.

Definition loop_init : LoopState :=
  {| body := ""; lastSpeakerId := None; currentSpeakerTextAccumulator := "" |}.

(** Lines 182-184 and 202-204: the accumulated text goes to the body. *)
Definition flush (body acc : string) : string :=
  if truthy acc then body +:+ trim acc +:+ LF else body.

(** Lines 195-199. *)
Definition accumulate (acc sentence : string) : string :=
  if truthy acc then acc +:+ " " +:+ sentence else sentence.

(** [currentSpeakerId !== lastSpeakerId] at line 181. *)
Definition speaker_changed (currentSpeakerId : Z) (lastSpeakerId : option Z) : bool :=
  match lastSpeakerId with
  | Some l => negb (currentSpeakerId =? l)
  | None => true
  end.

(** One iteration of the loop at lines 175-200. *)
Definition caption_step (speakerMeta : gmap string string)
    (st : LoopState) (caption : Caption) : LoopState :=
  let currentSpeakerId := speaker_id caption in
  let name := speakerName speakerMeta currentSpeakerId in
  let timestamp := formatTime (time caption) in
  if speaker_changed currentSpeakerId (lastSpeakerId st) then
    let b1 := flush (body st) (currentSpeakerTextAccumulator st) in
    let b2 := if truthy b1 then b1 +:+ LF else b1 in
    let b3 := b2 +:+ timestamp +:+ LF in
    let b4 := b3 +:+ name +:+ LF in
    {| body := b4;
       lastSpeakerId := Some currentSpeakerId;
       currentSpeakerTextAccumulator := accumulate "" (sentence caption) |}
  else
    {| body := body st;
       lastSpeakerId := lastSpeakerId st;
       currentSpeakerTextAccumulator :=
         accumulate (currentSpeakerTextAccumulator st) (sentence caption) |}.

Definition caption_loop (speakerMeta : gmap string string)
    (captions : list Caption) (st : LoopState) : LoopState :=
  fold_left (caption_step speakerMeta) captions st.

(** Lines 202-204: the flush after the loop. *)
Definition final_flush (st : LoopState) : string :=
  flush (body st) (currentSpeakerTextAccumulator st).

(** Lines 171-204: the value of [body] when line 206 is reached. *)
Definition formatBody (speakerMeta : gmap string string) (captions : list Caption) : string :=
  final_flush (caption_loop speakerMeta captions loop_init).

(** Lines 206-210. *)
Definition join_header_body (header body : string) : string :=
  if truthy header then trim (header +:+ LF +:+ LF +:+ trim body) else trim body.

Definition formatTranscript (meetingNote : option MeetingNote)
    (meetingUrl : option string) : string :=
  match meetingNote with
  | None => MISSING_DATA
  | Some note =>
      match captions note, speakerMeta note with
      | Some captions, Some speakerMeta =>
          let header := formatHeader (title note) (date note) meetingUrl (attendees note) in
          join_header_body header (formatBody speakerMeta captions)
      | _, _ => MISSING_DATA
      end
  end.

(** ** Notions of the specification *)

(** The mathematical [a mod b] of the specification: the remainder of the
    floored division. *)
Definition Qmod (a b : Q) : Q :=
  (a - b * inject_Z (Qfloor (a / b)))%Q.

(** The character [c] occurs in [s]. *)
Fixpoint occurs (c : ascii) (s : string) : bool :=
  match s with
  | EmptyString => false
  | String d r => Ascii.eqb d c || occurs c r
  end.

(** An attendee's display line: name and e-mail when both are present,
    else the one that is, else no line. *)
Definition display_line (name email : option string) : option string :=
  match truthy_opt name, truthy_opt email with
  | true, true => Some (default "" name +:+ " " +:+ default "" email)
  | true, false => Some (default "" name)
  | false, true => Some (default "" email)
  | false, false => None
  end.

(** The lines of the attendees that have one, in order. *)
Definition attendee_lines (attendees : option (list Attendee)) : list string :=
  omap (λ a, display_line (or_else (displayName a) (name a)) (email a))
       (default [] attendees).

(** A block put after what precedes it, [sep] between them, or alone when
    nothing precedes it. *)
Definition append_block (sep before block : string) : string :=
  match before with
  | EmptyString => block
  | _ => before +:+ sep +:+ block
  end.

(** The header as the four steps of the specification build it. *)
Definition header_by_steps (title date meetingUrl : option string)
    (attendees : option (list Attendee)) : string :=
  let step1 := if truthy_opt title then default "" title else "" in
  let step2 :=
    if truthy_opt title && truthy_opt date
    then step1 +:+ " | " +:+ default "" date else step1 in
  let step3 :=
    if truthy_opt meetingUrl
    then append_block LF step2 (split_head "?" (default "" meetingUrl))
    else step2 in
  match attendee_lines attendees with
  | [] => step3
  | lines => append_block (LF +:+ LF) step3 (String.concat LF lines)
  end.

(** The speaker runs of a caption sequence: its maximal blocks of
    consecutive captions with the same speaker id, in order. *)
Fixpoint runs (l : list Caption) : list (list Caption) :=
  match l with
  | [] => []
  | c :: l' =>
      match runs l' with
      | (c' :: r) :: rs =>
          if speaker_id c =? speaker_id c' then (c :: c' :: r) :: rs
          else [c] :: (c' :: r) :: rs
      | _ => [[c]]
      end
  end.

(** The two header lines of a run: time stamp and speaker name of its
    first caption. *)
Definition run_header (speakerMeta : gmap string string) (c : Caption) : string :=
  formatTime (time c) +:+ LF +:+ speakerName speakerMeta (speaker_id c) +:+ LF.

(** The text line of a run: the sentences joined by single spaces and
    trimmed; no line at all when every sentence is empty. *)
Definition run_text (r : list Caption) : string :=
  if forallb (λ c, negb (truthy (sentence c))) r then ""
  else trim (String.concat " " (map sentence r)) +:+ LF.

Definition run_block (speakerMeta : gmap string string) (r : list Caption) : string :=
  match r with
  | [] => ""
  | c :: _ => run_header speakerMeta c +:+ run_text r
  end.

(** ** The loop seen as a writer

    What the loop and the final flush append to [body] from a state in
    which [last] is the current speaker, [acc] the accumulated text and
    [body] is not empty. *)

Definition flush_text (acc : string) : string :=
  if truthy acc then trim acc +:+ LF else "".

Fixpoint output (speakerMeta : gmap string string) (captions : list Caption)
    (last : Z) (acc : string) : string :=
  match captions with
  | [] => flush_text acc
  | c :: l =>
      if speaker_id c =? last
      then output speakerMeta l last (accumulate acc (sentence c))
      else flush_text acc +:+ LF +:+ run_header speakerMeta c +:+
           output speakerMeta l (speaker_id c) (sentence c)
  end.

Definition accumulate_all (acc : string) (sentences : list string) : string :=
  fold_left accumulate sentences acc.

(** The blocks of the runs [rs], each after a separating line feed. *)
Fixpoint blocks_after (speakerMeta : gmap string string) (rs : list (list Caption)) : string :=
  match rs with
  | [] => ""
  | r :: rs' => LF +:+ run_block speakerMeta r +:+ blocks_after speakerMeta rs'
  end.

(** [output] in terms of the runs of the captions still to come. *)
Definition output_of_runs (speakerMeta : gmap string string) (rs : list (list Caption))
    (last : Z) (acc : string) : string :=
  match rs with
  | (c :: r) :: rs' =>
      if speaker_id c =? last
      then flush_text (accumulate_all acc (map sentence (c :: r))) +:+
           blocks_after speakerMeta rs'
      else flush_text acc +:+ blocks_after speakerMeta rs
  | _ => flush_text acc
  end.

(** The characters a rendered integer can begin with. *)
Definition is_digit_or_minus (c : ascii) : bool :=
  match c with
  | "0" | "1" | "2" | "3" | "4" | "5" | "6" | "7" | "8" | "9" | "-" => true
  | _ => false
  end%char.

Definition starts_numeric (s : string) : bool :=
  match s with
  | String c _ => is_digit_or_minus c
  | EmptyString => false
  end.

(** ** The record of the end-to-end example *)

Definition caption (speaker_id : Z) (sentence : string) (time : Q) : Caption :=
  {| sentence := sentence; speaker_id := speaker_id; time := time |}.

Definition standup_captions : list Caption :=
  [caption 0 "Hi" 0; caption 0 "team" 2; caption 1 "Hey" 5].

Definition standup_speakerMeta : gmap string string :=
  {["1" := "Bo"; "2" := "Amy"]}.

Definition standup : MeetingNote :=
  {| captions := Some standup_captions;
     attendees := Some [{| email := Some "b@x.com"; name := Some "Bo"; displayName := None |}];
     title := Some "Standup";
     date := Some "2024-01-01";
     speakerMeta := Some standup_speakerMeta |}.

(** A record with captions and speaker directory, both empty, whose title
    is the text of the diagnostic. *)
Definition error_titled : MeetingNote :=
  {| captions := Some [];
     attendees := None;
     title := Some MISSING_DATA;
     date := None;
     speakerMeta := Some ∅ |}.

(** The bound below which doubles hold integers exactly: 2^53. *)
Definition EXACT_BOUND : Z := 2 ^ 53.

(** Two records with one caption: one whose title is a single space, one
    whose title ends in a line feed. *)
Definition blank_titled : MeetingNote :=
  {| captions := Some [caption 0 "Hi" 0];
     attendees := None;
     title := Some " ";
     date := None;
     speakerMeta := Some standup_speakerMeta |}.

Definition newline_titled : MeetingNote :=
  {| captions := Some [caption 0 "Hi" 0];
     attendees := None;
     title := Some ("Standup" +:+ LF);
     date := None;
     speakerMeta := Some standup_speakerMeta |}.

(** * The rest of the script *)

(** ** More string primitives *)

(** [s.startsWith(p)]. *)
Fixpoint startsWith (s p : string) {struct p} : bool :=
  match p with
  | EmptyString => true
  | String a p' =>
      match s with
      | EmptyString => false
      | String b s' => Ascii.eqb b a && startsWith s' p'
      end
  end.

(** [s.includes(sub)]. *)
Fixpoint includes (s sub : string) : bool :=
  match s with
  | EmptyString => startsWith EmptyString sub
  | String _ r => startsWith s sub || includes r sub
  end.

(** [s.split(sep)] for a separator that is not empty.  [skip] counts the
    characters of a separator just found that are still to be passed. *)
Fixpoint split_go (sep s : string) (skip : nat) : list string :=
  match s with
  | EmptyString => [EmptyString]
  | String c r =>
      match skip with
      | S k => split_go sep r k
      | O =>
          if startsWith s sep
          then EmptyString :: split_go sep r (String.length sep - 1)
          else match split_go sep r 0 with
               | h :: t => String c h :: t
               | [] => [String c EmptyString]
               end
      end
  end.

Definition split (s sep : string) : list string := split_go sep s 0.

Fixpoint drop_chars (n : nat) (s : string) : string :=
  match n, s with
  | S k, String _ r => drop_chars k r
  | _, _ => s
  end.

Fixpoint take_while (f : ascii → bool) (s : string) : string :=
  match s with
  | EmptyString => EmptyString
  | String c r => if f c then String c (take_while f r) else EmptyString
  end.

(** ** getMeetingNoteIdFromUrl (lines 89-115) *)

(** The class [[^/?#]] of the regular expression at line 92. *)
Definition id_char (c : ascii) : bool :=
  negb (Ascii.eqb c "/" || Ascii.eqb c "?" || Ascii.eqb c "#").

(** The regular expression [/view\/([^/?#]+)/] tried at the start of [s]:
    the captured group, which is greedy and takes one character or more. *)
Definition match_view_here (s : string) : option string :=
  if startsWith s "view/" then
    let group := take_while id_char (drop_chars 5 s) in
    if truthy group then Some group else None
  else None.

(** [href.match(/view\/([^/?#]+)/)]: group 1 of the leftmost match, [None]
    when nothing matches. *)
Fixpoint match_view (s : string) : option string :=
  match s with
  | EmptyString => None
  | String _ r =>
      match match_view_here s with
      | Some group => Some group
      | None => match_view r
      end
  end.

(** Lines 104-114, the fallback, which is also the whole of the older
    [getMeetingNoteIdFromUrl] at lines 489-500. *)
Definition getMeetingNoteIdFromUrl_legacy (href : string) : option string :=
  let urlParts := split href "/" in
  match find (λ part, includes part "::") urlParts with
  | Some viewSegment =>
      if truthy viewSegment then
        let idParts := split viewSegment "::" in
        if (1 <? length idParts)%nat
        then split_head "?" <$> idParts !! 1%nat
        else None
      else None
  | None => None
  end.

(** [href] is [window.location.href]; [None] is the [null] returned. *)
Definition getMeetingNoteIdFromUrl (href : string) : option string :=
  match match_view href with
  | Some potentialId =>
      if truthy potentialId then
        if includes potentialId "::" then
          let idParts := split potentialId "::" in
          if (1 <? length idParts)%nat then idParts !! 1%nat else None
        else Some potentialId
      else getMeetingNoteIdFromUrl_legacy href
  | None => getMeetingNoteIdFromUrl_legacy href
  end.

(** The address of a meeting page, tested at line 359. *)
Definition VIEW_PREFIX : string := "https://app.fireflies.ai/view/".

(** The text after a captured id: nothing, or something that begins with
    a character the group cannot take. *)
Definition ends_group (rest : string) : bool :=
  match rest with
  | EmptyString => true
  | String c _ => negb (id_char c)
  end.

(** Every character of [s] passes [f]. *)
Fixpoint all_chars (f : ascii → bool) (s : string) : bool :=
  match s with
  | EmptyString => true
  | String c r => f c && all_chars f r
  end.

(** ** waitForElement (lines 59-75)

    The function given to [setInterval] runs at each tick until
    [clearInterval] is called.  A run is described by what
    [document.querySelector(selector)] finds at each tick: [Some] element
    or [None]. *)

Record Waiting := {
  elapsedTime : Z;
  cleared : bool
}.

Definition waiting_init : Waiting := {| elapsedTime := 0; cleared := false |}.

(** The default values of the parameters [timeout] and [interval]. *)
Definition DEFAULT_TIMEOUT : Z := 10000.
Definition DEFAULT_INTERVAL : Z := 100.

(** One tick (lines 62-72): the new state and the element handed to
    [callback], if any. *)
Definition poll {Element : Type} (timeout interval : Z) (st : Waiting)
    (element : option Element) : Waiting * option Element :=
  match element with
  | Some e => ({| elapsedTime := elapsedTime st; cleared := true |}, Some e)
  | None =>
      let elapsed := elapsedTime st + interval in
      ({| elapsedTime := elapsed; cleared := timeout <=? elapsed |}, None)
  end.

(** The ticks of one wait: the final state and the elements handed to
    [callback], in order.  A cleared timer does not tick. *)
Fixpoint waitForElement {Element : Type} (timeout interval : Z) (st : Waiting)
    (queries : list (option Element)) : Waiting * list Element :=
  match queries with
  | [] => (st, [])
  | q :: rest =>
      if cleared st then (st, [])
      else
        let (st', called) := poll timeout interval st q in
        let (st'', calls) := waitForElement timeout interval st' rest in
        (st'', option_list called ++ calls)
  end.

(** ** What the user sees and what is sent

    The effects kept are the calls of [alert], [GM_setClipboard] and
    [GM_xmlhttpRequest]; console output is left out.  Of a request the
    Authorization header, the refresh token header, the [meetingNoteId]
    variable of the query and the [meetingUrl] its handlers will use are
    kept. *)

Inductive Effect :=
  | alert (message : string)
  | GM_setClipboard (text : string)
  | GM_xmlhttpRequest (authorization refreshToken meetingNoteId meetingUrl : string).

(** getAuthDetails (lines 77-87); [localStorage.getItem] gives [null] for
    a key that is not stored. *)
Definition getAuthDetails (localStorage : gmap string string)
    : list Effect * option (string * string) :=
  let authToken := localStorage !! "AUTHORIZATION" in
  let refreshToken := localStorage !! "REFRESH_TOKEN" in
  if negb (truthy_opt authToken) || negb (truthy_opt refreshToken) then
    ([alert "Fireflies Script: Auth tokens not found. Please ensure you are logged in and tokens are in localStorage."],
     None)
  else ([], Some (default "" authToken, default "" refreshToken)).

(** fetchAndCopyTranscriptData (lines 213-279) up to the request. *)
Definition fetchAndCopyTranscriptData (meetingNoteId token refreshTok : option string)
    (meetingUrl : string) : list Effect :=
  if negb (truthy_opt meetingNoteId) then
    [alert "Error: Could not determine Meeting ID."]
  else if negb (truthy_opt token) || negb (truthy_opt refreshTok) then
    [alert "Error: Auth tokens not found. Please ensure you are logged in."]
  else
    [GM_xmlhttpRequest ("Bearer " +:+ default "" token) (default "" refreshTok)
       (default "" meetingNoteId) meetingUrl].

(** What [JSON.parse(response.responseText)] gives, as far as lines
    247-257 look at it: an exception, a value without [data.meetingNote],
    or one with it. *)
Inductive Parsed :=
  | parse_error
  | no_meetingNote
  | with_meetingNote (meetingNote : MeetingNote).

(** The [onload] handler (lines 243-268).  Of the exceptions the [try]
    catches, only the one of [JSON.parse] is modelled. *)
Definition onload (meetingUrl : string) (status : Z) (parsedResponse : Parsed)
    : list Effect :=
  if (200 <=? status) && (status <? 300) then
    match parsedResponse with
    | with_meetingNote meetingNote =>
        let formattedTranscript := formatTranscript (Some meetingNote) (Some meetingUrl) in
        [GM_setClipboard formattedTranscript; alert "Transcript copied to clipboard!"]
    | no_meetingNote =>
        [alert "Error: Could not retrieve transcript data. Check console for details."]
    | parse_error =>
        [alert "Error: Could not parse transcript data. Check console for details."]
    end
  else
    [alert ("Error fetching transcript: " +:+ Number_toString status +:+
            ". Check console for details.")].

(** The [onerror] and [ontimeout] handlers (lines 269-277). *)
Definition onerror : list Effect :=
  [alert "Network error while fetching transcript. Check console for details."].

Definition ontimeout : list Effect :=
  [alert "Request to fetch transcript timed out."].

(** The click listener of the button (lines 322-336); [href] is
    [window.location.href]. *)
Definition copy_button_click (localStorage : gmap string string) (href : string)
    : list Effect :=
  let (shown, authDetails) := getAuthDetails localStorage in
  let meetingNoteId := getMeetingNoteIdFromUrl href in
  let meetingUrl := href in
  match authDetails with
  | Some (authToken, refreshToken) =>
      if truthy_opt meetingNoteId then
        shown ++ fetchAndCopyTranscriptData meetingNoteId (Some authToken)
                   (Some refreshToken) meetingUrl
      else
        shown ++ [alert "Could not copy transcript. Missing Auth Tokens or Meeting ID. Check console."]
  | None =>
      shown ++ [alert "Could not copy transcript. Missing Auth Tokens or Meeting ID. Check console."]
  end.

(** ** The older formatTranscript (lines 508-587), without the URL line *)

Definition formatTranscript_legacy (meetingNote : option MeetingNote) : string :=
  match meetingNote with
  | None => MISSING_DATA
  | Some note =>
      match captions note, speakerMeta note with
      | Some captions, Some speakerMeta =>
          let header := header_attendees (header_title (title note) (date note))
                          (attendees note) in
          join_header_body header (formatBody speakerMeta captions)
      | _, _ => MISSING_DATA
      end
  end.

(** ** createCopyButton and initializeActiveViewFeatures (lines 281-377)

    Of the page the model keeps the number of elements whose id is
    [COPY_BUTTON_ID], the variable [currentWaitForButtonContainerTimer]
    and the waits for the download button that [setInterval] has started
    and [clearInterval] has not stopped, each with its [elapsedTime].
    Timer ids are positive numbers. *)

Record Page := {
  copy_buttons : nat;
  currentWaitForButtonContainerTimer : option nat;
  intervals : gmap nat Z;
  next_timer : nat
}.

Definition page_init : Page :=
  {| copy_buttons := 0%nat;
     currentWaitForButtonContainerTimer := None;
     intervals := ∅;
     next_timer := 1%nat |}.

(** Lines 281-292: nothing when the button is there, else a wait for the
    download button is started and its timer kept in the variable. *)
Definition createCopyButton (page : Page) : Page :=
  if (0 <? copy_buttons page)%nat then page
  else
    {| copy_buttons := copy_buttons page;
       currentWaitForButtonContainerTimer := Some (next_timer page);
       intervals := <[next_timer page := 0]> (intervals page);
       next_timer := S (next_timer page) |}.

(** [existingButton.remove()] when [existingButton] is there. *)
Definition remove_existing (page : Page) : Page :=
  {| copy_buttons := Nat.pred (copy_buttons page);
     currentWaitForButtonContainerTimer := currentWaitForButtonContainerTimer page;
     intervals := intervals page;
     next_timer := next_timer page |}.

(** Lines 350-354: a pending wait is stopped and the variable reset. *)
Definition clear_pending (page : Page) : Page :=
  match currentWaitForButtonContainerTimer page with
  | Some t =>
      if (0 <? t)%nat then
        {| copy_buttons := copy_buttons page;
           currentWaitForButtonContainerTimer := None;
           intervals := delete t (intervals page);
           next_timer := next_timer page |}
      else page
  | None => page
  end.

(** Lines 345-377; [href] is [window.location.href]. *)
Definition initializeActiveViewFeatures (href : string) (page : Page) : Page :=
  let page := clear_pending page in
  if startsWith href VIEW_PREFIX then
    if truthy_opt (getMeetingNoteIdFromUrl href) then createCopyButton page
    else remove_existing page
  else remove_existing page.

(** One tick of the wait with timer [t] (lines 292-342).  [found] is what
    [querySelector] gives for the download icon: [None], or [Some] with
    whether the icon has the wrapper next to which the button can be put
    (without it the callback ends before inserting anything). *)
Definition button_wait_tick (t : nat) (found : option bool) (page : Page) : Page :=
  match intervals page !! t with
  | None => page
  | Some elapsed =>
      let (st, called) :=
        poll DEFAULT_TIMEOUT DEFAULT_INTERVAL
          {| elapsedTime := elapsed; cleared := false |} found in
      {| copy_buttons :=
           match called with
           | Some true => S (copy_buttons page)
           | _ => copy_buttons page
           end;
         currentWaitForButtonContainerTimer := currentWaitForButtonContainerTimer page;
         intervals :=
           if cleared st then delete t (intervals page)
           else <[t := elapsedTime st]> (intervals page);
         next_timer := next_timer page |}
  end.

(** What happens to the page: the script starts or the address changes
    (line 380 and lines 384-391, [initializeActiveViewFeatures] runs), or a
    timer ticks. *)
Inductive Event :=
  | Initialize (href : string)
  | Tick (t : nat) (found : option bool).

Definition page_step (page : Page) (e : Event) : Page :=
  match e with
  | Initialize href => initializeActiveViewFeatures href page
  | Tick t found => button_wait_tick t found page
  end.

Definition page_run (events : list Event) : Page :=
  fold_left page_step events page_init.

(** What the script keeps true of the page: either no wait is pending and
    there is at most one button, or there is no button and the one pending
    wait is the one the variable holds. *)
Definition page_ok (page : Page) : Prop :=
  (0 < next_timer page)%nat
  ∧ ((intervals page = ∅
      ∧ (copy_buttons page ≤ 1)%nat
      ∧ ∀ t, currentWaitForButtonContainerTimer page = Some t →
             (0 < t < next_timer page)%nat)
     ∨ (∃ t elapsed,
          currentWaitForButtonContainerTimer page = Some t
          ∧ intervals page = {[t := elapsed]}
          ∧ copy_buttons page = 0%nat
          ∧ (0 < t < next_timer page)%nat)).

(** The messages shown and the texts put on the clipboard. *)
Definition alerts (effects : list Effect) : list string :=
  omap (λ e, match e with alert m => Some m | _ => None end) effects.

Definition clipboard_writes (effects : list Effect) : list string :=
  omap (λ e, match e with GM_setClipboard t => Some t | _ => None end) effects.

(** * Properties *)

(** ** Facts about strings *)

Lemma app_String c s t : String c s +:+ t = String c (s +:+ t).
Proof. reflexivity. Qed.

Lemma app_empty_r s : s +:+ "" = s.
Proof. induction s as [|c s IH]; [reflexivity|]. by rewrite app_String, IH. Qed.

Lemma str_app_assoc s t u : (s +:+ t) +:+ u = s +:+ t +:+ u.
Proof. induction s as [|c s IH]; [reflexivity|]. by rewrite !app_String, IH. Qed.

Lemma length_app s t : String.length (s +:+ t) = (String.length s + String.length t)%nat.
Proof. induction s as [|c s IH]; [reflexivity|]. rewrite app_String. simpl. by rewrite IH. Qed.

Lemma truthy_true s : truthy s = true ↔ s ≠ "".
Proof. destruct s; simpl; split; congruence. Qed.

Lemma truthy_false s : truthy s = false ↔ s = "".
Proof. destruct s; simpl; split; congruence. Qed.

Lemma truthy_app_r s t : truthy t = true → truthy (s +:+ t) = true.
Proof. destruct s; [done|]. by rewrite app_String. Qed.

Lemma truthy_app_l s t : truthy s = true → truthy (s +:+ t) = true.
Proof. destruct s; [done|]. by rewrite app_String. Qed.


Lemma trimStart_cons c s :
  is_white_space c = false → trimStart (String c s) = String c s.
Proof. intros H. simpl. by rewrite H. Qed.

Lemma trimEnd_cons c s :
  is_white_space c = false → trimEnd (String c s) = String c (trimEnd s).
Proof. intros H. simpl. destruct (trimEnd s); by rewrite ?H. Qed.

Lemma trimEnd_app s t : trimEnd t ≠ "" → trimEnd (s +:+ t) = s +:+ trimEnd t.
Proof.
  intros Ht. induction s as [|c s IH]; [reflexivity|].
  rewrite !app_String. simpl. rewrite IH.
  destruct s; [|by rewrite app_String].
  change ("" +:+ trimEnd t) with (trimEnd t). by destruct (trimEnd t).
Qed.

Lemma trimEnd_idemp s : trimEnd (trimEnd s) = trimEnd s.
Proof.
  induction s as [|c s IH]; [reflexivity|]. simpl.
  destruct (trimEnd s) as [|d r] eqn:E.
  - destruct (is_white_space c) eqn:Hc; [reflexivity|]. simpl. by rewrite Hc.
  - change (trimEnd (String c (String d r))) with
      (match trimEnd (String d r) with
       | "" => if is_white_space c then "" else String c ""
       | String d' r' => String c (String d' r')
       end).
    by rewrite IH.
Qed.

(** What [trimStart] leaves is empty or begins with a character that is
    not white space. *)
Lemma trimStart_head s :
  trimStart s = "" ∨ ∃ c r, trimStart s = String c r ∧ is_white_space c = false.
Proof.
  induction s as [|c s IH]; [by left|]. simpl.
  destruct (is_white_space c) eqn:Hc; [done|]. right. by exists c, s.
Qed.

Lemma trimStart_trimEnd s : trimStart (trimEnd (trimStart s)) = trimEnd (trimStart s).
Proof.
  destruct (trimStart_head s) as [->|(c & r & -> & Hc)]; [reflexivity|].
  rewrite trimEnd_cons by done. by apply trimStart_cons.
Qed.

Lemma trimStart_trim s : trimStart (trim s) = trim s.
Proof. apply trimStart_trimEnd. Qed.

Lemma trimEnd_trim s : trimEnd (trim s) = trim s.
Proof. apply trimEnd_idemp. Qed.

Lemma trim_idemp s : trim (trim s) = trim s.
Proof. unfold trim at 1. by rewrite trimStart_trim, trimEnd_trim. Qed.

(** A string with no character to keep at its start is blank to its end. *)
Lemma trimStart_app_blank s t : trimStart s = "" → trimStart (s +:+ t) = trimStart t.
Proof.
  induction s as [|c s IH]; [done|]. simpl.
  destruct (is_white_space c); [done|discriminate].
Qed.

Lemma trimStart_app s t : trimStart s ≠ "" → trimStart (s +:+ t) = trimStart s +:+ t.
Proof.
  induction s as [|c s IH]; [done|]. simpl.
  destruct (is_white_space c); [done|]. by rewrite app_String.
Qed.

Lemma trim_cons c s :
  is_white_space c = false → trim (String c s) = String c (trimEnd s).
Proof. intros H. unfold trim. by rewrite trimStart_cons, trimEnd_cons. Qed.


(** ** Numbers and their rendering *)

Lemma Qfloor_div60 (t : Q) : Qfloor (t / 60) = Qfloor t / 60.
Proof.
  destruct t as [n d]. unfold Qdiv, Qmult, Qinv, Qfloor. simpl.
  rewrite Z.mul_1_r, Pos2Z.inj_mul, Z.div_div by lia. reflexivity.
Qed.

Lemma Qtrunc_nonneg (q : Q) : (0 <= q)%Q → Qtrunc q = Qfloor q.
Proof. intros H. unfold Qtrunc. apply Qle_bool_iff in H. by rewrite H. Qed.

Lemma Qdiv60_nonneg (t : Q) : (0 <= t)%Q → (0 <= t / 60)%Q.
Proof.
  intros H. unfold Qdiv. apply Qmult_le_0_compat; [done|]. discriminate.
Qed.

Lemma Qfloor_sub_Z (t : Q) (k : Z) :
  Qfloor (t - 60 * inject_Z k) = Qfloor t - 60 * k.
Proof.
  destruct t as [n d]. unfold Qminus, Qplus, Qopp, Qmult, inject_Z, Qfloor.
  cbn [Qnum Qden].
  replace (Z.pos (d * (1 * 1))) with (Z.pos d) by lia.
  replace (n * Z.pos (1 * 1) + - (60 * k) * Z.pos d)
    with (n + (- (60 * k)) * Z.pos d) by lia.
  rewrite Z.div_add by lia. ring.
Qed.

(** On a time that is not negative the truncating [%] is the floored
    remainder. *)
Lemma js_rem_Qmod (t : Q) : (0 <= t)%Q → js_rem t 60 = Qmod t 60.
Proof.
  intros H. unfold js_rem, Qmod. by rewrite Qtrunc_nonneg by by apply Qdiv60_nonneg.
Qed.

Lemma Qfloor_Qmod60 (t : Q) : Qfloor (Qmod t 60) = Qfloor t mod 60.
Proof.
  unfold Qmod. rewrite Qfloor_sub_Z, Qfloor_div60.
  rewrite Z.mod_eq by lia. reflexivity.
Qed.

Lemma Qfloor_nonneg (t : Q) : (0 <= t)%Q → 0 <= Qfloor t.
Proof. intros H. change 0 with (Qfloor 0). by apply Qfloor_resp_le. Qed.

Lemma Number_toString_short n :
  0 <= n → (String.length (Number_toString n) < 2)%nat → n < 10.
Proof.
  intros Hn Hlen. rewrite <- (DecimalZ.of_to n) in Hn |- *.
  unfold Number_toString in Hlen.
  destruct (Z.to_int n) as [u|u].
  - destruct u as [|u|u|u|u|u|u|u|u|u|u]; [done|..];
      (destruct u; [done|simpl in Hlen; lia..]).
  - destruct u as [|u|u|u|u|u|u|u|u|u|u]; simpl in Hlen; try lia.
Qed.

(** Every number below [bound] passes the test [P]: the finite checks
    below run [P] on each of them. *)
Lemma below_forall (P : Z → bool) (bound : nat) :
  forallb P (map Z.of_nat (seq 0 bound)) = true →
  ∀ n, 0 <= n < Z.of_nat bound → P n = true.
Proof.
  intros H n Hn. rewrite forallb_forall in H. apply H.
  apply in_map_iff. exists (Z.to_nat n). split; [lia|].
  apply in_seq. lia.
Qed.

Lemma padStart_digit n :
  0 <= n < 10 → padStart 2 "0" (Number_toString n) = "0" +:+ Number_toString n.
Proof.
  intros Hn.
  apply (below_forall
    (λ n, String.eqb (padStart 2 "0" (Number_toString n)) ("0" +:+ Number_toString n)) 10)
    in Hn; [|by vm_compute].
  by apply String.eqb_eq in Hn.
Qed.

Lemma padStart_wide n :
  10 <= n → padStart 2 "0" (Number_toString n) = Number_toString n.
Proof.
  intros Hn. unfold padStart.
  destruct (2 <=? String.length (Number_toString n))%nat eqn:E; [done|].
  apply Nat.leb_gt in E. apply Number_toString_short in E; lia.
Qed.

Lemma padStart_length_ge (targetLength : nat) (c : ascii) s :
  (targetLength ≤ String.length (padStart targetLength (String c "") s))%nat.
Proof.
  unfold padStart. destruct (targetLength <=? String.length s)%nat eqn:E.
  - by apply Nat.leb_le in E.
  - apply Nat.leb_gt in E. rewrite length_app.
    assert (∀ k cur, String.length (pad_fill (String c "") cur k) = k) as ->; [|lia].
    induction k as [|k IH]; intros cur; [done|].
    simpl. destruct cur; simpl; by rewrite IH.
Qed.

Lemma padStart_seconds n :
  0 <= n < 60 → String.length (padStart 2 "0" (Number_toString n)) = 2%nat.
Proof.
  intros Hn.
  apply (below_forall
    (λ n, Nat.eqb (String.length (padStart 2 "0" (Number_toString n))) 2) 60)
    in Hn; [|by vm_compute].
  by apply Nat.eqb_eq in Hn.
Qed.

(** C5. For a time that is not negative and is below 2^53, where the
    numbers of the model are those of the code, [formatTime] writes
    floor(t / 60) and floor(t mod 60), each padded with zeros to two
    characters or more, with a colon between them.  There is no hour
    field: the two numbers add up to the whole seconds, the seconds stay
    below 60 and always take two characters, and minutes of 10 or more
    (so also of 60 or more) are written in full as they are.
    [formatTime 65] is "01:05" and [formatTime 3661] is "61:01". *)
Theorem formatTime_layout (totalSeconds : Q) :
  (0 <= totalSeconds)%Q →
  (totalSeconds < inject_Z EXACT_BOUND)%Q →
  let minutes := Qfloor (totalSeconds / 60) in
  let seconds := Qfloor (Qmod totalSeconds 60) in
  formatTime totalSeconds =
    padStart 2 "0" (Number_toString minutes) +:+ ":" +:+
    padStart 2 "0" (Number_toString seconds)
  ∧ 60 * minutes + seconds = Qfloor totalSeconds
  ∧ Qfloor totalSeconds < EXACT_BOUND
  ∧ 0 <= minutes ∧ 0 <= seconds < 60
  ∧ (2 ≤ String.length (padStart 2 "0" (Number_toString minutes)))%nat
  ∧ String.length (padStart 2 "0" (Number_toString seconds)) = 2%nat
  ∧ (minutes < 10 →
     padStart 2 "0" (Number_toString minutes) = "0" +:+ Number_toString minutes)
  ∧ (10 <= minutes →
     padStart 2 "0" (Number_toString minutes) = Number_toString minutes)
  ∧ formatTime 65 = "01:05"
  ∧ formatTime 3661 = "61:01".
Proof.
  intros Ht Hbound minutes seconds.
  assert (Hm : minutes = Qfloor totalSeconds / 60) by apply Qfloor_div60.
  assert (Hs : seconds = Qfloor totalSeconds mod 60) by apply Qfloor_Qmod60.
  pose proof (Qfloor_nonneg _ Ht) as Hfl.
  assert (Hlt : Qfloor totalSeconds < EXACT_BOUND).
  { rewrite Zlt_Qlt. eapply Qle_lt_trans; [apply Qfloor_le|exact Hbound]. }
  assert (0 <= minutes) by (rewrite Hm; apply Z.div_pos; lia).
  assert (0 <= seconds < 60) by (rewrite Hs; apply Z.mod_pos_bound; lia).
  repeat split; try lia.
  - unfold formatTime. by rewrite js_rem_Qmod.
  - rewrite Hm, Hs. symmetry. apply Z.div_mod. lia.
  - apply padStart_length_ge.
  - by apply padStart_seconds.
  - intros. apply padStart_digit. lia.
  - apply padStart_wide.
Qed.

Lemma formatTime_layout_witness :
  (0 <= 7509 # 10)%Q ∧ (7509 # 10 < inject_Z EXACT_BOUND)%Q
  ∧ formatTime (7509 # 10) = "12:30".
Proof.
  assert (H : (0 <= 7509 # 10)%Q) by discriminate.
  assert (Hb : (7509 # 10 < inject_Z EXACT_BOUND)%Q) by reflexivity.
  split; [exact H|]. split; [exact Hb|].
  destruct (formatTime_layout (7509 # 10) H Hb) as [E _].
  rewrite E. reflexivity.
Defined.

(** ** The speaker's name *)

(** C2, as the code has it.  An entry under the key [speakerId + 1] that is
    not empty is returned as it is; with no entry, or with an empty one,
    the result is "Unknown Speaker " followed by [speakerId + 1].  With the
    directory that maps "1" to "Alice", speaker 0 is "Alice" and speaker 1
    is "Unknown Speaker 2". *)
Theorem speakerName_resolution (speakerMeta : gmap string string) (speakerId : Z) :
  let key := Number_toString (speakerId + 1) in
  let fallback := "Unknown Speaker " +:+ Number_toString (speakerId + 1) in
  (∀ n, speakerMeta !! key = Some n → n ≠ "" → speakerName speakerMeta speakerId = n)
  ∧ (speakerMeta !! key = Some "" → speakerName speakerMeta speakerId = fallback)
  ∧ (speakerMeta !! key = None → speakerName speakerMeta speakerId = fallback)
  ∧ speakerName {["1" := "Alice"]} 0 = "Alice"
  ∧ speakerName {["1" := "Alice"]} 1 = "Unknown Speaker 2".
Proof.
  intros key fallback. unfold speakerName. fold key. fold fallback.
  repeat split.
  - intros n -> Hn. apply truthy_true in Hn. by rewrite Hn.
  - by intros ->.
  - by intros ->.
Qed.

Lemma speakerName_resolution_witness :
  ({["1" := "Bo"; "2" := "Amy"]} : gmap string string) !! Number_toString (1 + 1) = Some "Amy"
  ∧ "Amy" ≠ ""
  ∧ speakerName {["1" := "Bo"; "2" := "Amy"]} 1 = "Amy".
Proof.
  assert (H1 : ({["1" := "Bo"; "2" := "Amy"]} : gmap string string)
                 !! Number_toString (1 + 1) = Some "Amy") by reflexivity.
  assert (H2 : "Amy" ≠ "") by discriminate.
  split; [exact H1|]. split; [exact H2|].
  exact (proj1 (speakerName_resolution {["1" := "Bo"; "2" := "Amy"]} 1) "Amy" H1 H2).
Defined.

(** C2 as stated fails: the directory has an entry for speaker 0, the
    empty name, and the result is the fallback label, not that entry. *)
Lemma speakerName_empty_entry :
  ({["1" := ""]} : gmap string string) !! Number_toString (0 + 1) = Some ""
  ∧ speakerName {["1" := ""]} 0 = "Unknown Speaker 1"
  ∧ speakerName {["1" := ""]} 0 ≠ "".
Proof. repeat split. discriminate. Qed.

(** ** The header *)

Lemma or_else_truthy a b : truthy_opt a = true → or_else a b = a.
Proof. intros H. unfold or_else. by rewrite H. Qed.

Lemma or_else_falsy a b : truthy_opt a = false → or_else a b = b.
Proof. intros H. unfold or_else. by rewrite H. Qed.

Lemma truthy_opt_Some v : truthy_opt v = true → Some (default "" v) = v.
Proof. by destruct v. Qed.

Lemma attendee_line_display a :
  attendee_line a = display_line (or_else (displayName a) (name a)) (email a).
Proof.
  unfold attendee_line, display_line.
  destruct (truthy_opt (or_else _ _)) eqn:En, (truthy_opt (email a)) eqn:Ee; simpl;
    try done; by rewrite truthy_opt_Some.
Qed.

Lemma display_line_truthy n e s : display_line n e = Some s → truthy s = true.
Proof.
  unfold display_line.
  destruct n as [[|c n]|], e as [[|d e]|]; simpl; intros [=<-]; done.
Qed.

(** [.map(...).filter(Boolean)] keeps exactly the attendees that have a
    line. *)
Lemma filter_Boolean_lines l :
  filter_Boolean (map attendee_line l) = attendee_lines (Some l).
Proof.
  unfold attendee_lines. simpl. induction l as [|a l IH]; [done|].
  simpl. rewrite attendee_line_display.
  destruct (display_line _ _) as [s|] eqn:E; [|done].
  by rewrite (display_line_truthy _ _ _ E), IH.
Qed.

Lemma concat_truthy sep s l : truthy s = true → truthy (String.concat sep (s :: l)) = true.
Proof. intros H. destruct l; [done|]. simpl. by apply truthy_app_l. Qed.

Lemma attendee_lines_truthy atts s l :
  attendee_lines atts = s :: l → truthy (String.concat LF (s :: l)) = true.
Proof.
  intros E. apply concat_truthy.
  assert (Hin : s ∈ attendee_lines atts) by (rewrite E; left).
  unfold attendee_lines in Hin. apply list_elem_of_omap in Hin as (a & _ & Ha).
  by apply display_line_truthy in Ha.
Qed.

Lemma append_block_truthy sep before block :
  append_block sep before block =
    if truthy before then before +:+ sep +:+ block else block.
Proof. by destruct before. Qed.

Lemma split_head_no_sep sep s : occurs sep (split_head sep s) = false.
Proof.
  induction s as [|c s IH]; [done|]. simpl.
  destruct (Ascii.eqb c sep) eqn:E; [done|]. simpl. by rewrite E.
Qed.

Lemma split_head_prefix sep s :
  s = split_head sep s ∨ ∃ rest, s = split_head sep s +:+ String sep rest.
Proof.
  induction s as [|c s IH]; [by left|]. simpl.
  destruct (Ascii.eqb c sep) eqn:E.
  - apply Ascii.eqb_eq in E as ->. right. by exists s.
  - destruct IH as [IH|[rest IH]]; [left|right; exists rest];
      rewrite ?app_String; by f_equal.
Qed.

(** C7. The header is built in the order of the four steps: the title when
    present; " | " and the date when title and date are both present; the
    meeting URL cut before its first "?", on a new line after what
    precedes it or alone when nothing does; then the attendee lines
    (name and e-mail, or the one that is present, none for an attendee
    with neither) joined by line feeds and put after a blank line, or
    alone when nothing precedes them.  The cut URL has no "?" and is the
    URL itself or the part of it before a "?". *)
Theorem formatHeader_by_steps (title date meetingUrl : option string)
    (attendees : option (list Attendee)) :
  formatHeader title date meetingUrl attendees =
    header_by_steps title date meetingUrl attendees
  ∧ ∀ url, occurs "?" (split_head "?" url) = false
           ∧ (url = split_head "?" url
              ∨ ∃ query, url = split_head "?" url +:+ String "?" query).
Proof.
  split; [|intros url; split; [apply split_head_no_sep|apply split_head_prefix]].
  unfold formatHeader, header_by_steps, header_title, header_url.
  set (h2 := if truthy_opt meetingUrl then _ else _).
  set (s3 := if truthy_opt meetingUrl then _ else _).
  assert (E : h2 = s3).
  { subst h2 s3. rewrite append_block_truthy.
    by destruct (truthy_opt title), (truthy_opt date), (truthy_opt meetingUrl). }
  rewrite E. clear E h2. generalize s3. clear s3. intros h.
  unfold header_attendees. destruct attendees as [[|a l]|]; [done| |done].
  rewrite filter_Boolean_lines.
  destruct (attendee_lines (Some (a :: l))) as [|s ls] eqn:El; [done|].
  rewrite (attendee_lines_truthy _ _ _ El), append_block_truthy.
  by rewrite str_app_assoc.
Qed.

(** C10. An attendee with a [displayName] that is not empty is listed
    under it, whatever [name] holds; with [displayName] absent or empty the
    line is built from [name]; an attendee whose resolved name and e-mail
    are both absent or empty gives no line. *)
Theorem attendee_name_precedence (a : Attendee) :
  (truthy_opt (displayName a) = true →
     attendee_line a = display_line (displayName a) (email a)
     ∧ ∀ other,
         attendee_line {| email := email a; name := other; displayName := displayName a |}
         = attendee_line a)
  ∧ (truthy_opt (displayName a) = false →
     attendee_line a = display_line (name a) (email a))
  ∧ (truthy_opt (or_else (displayName a) (name a)) = false →
     truthy_opt (email a) = false →
     attendee_line a = None
     ∧ ∀ l, filter_Boolean (map attendee_line (a :: l)) = filter_Boolean (map attendee_line l)).
Proof.
  repeat split.
  - rewrite attendee_line_display. by rewrite or_else_truthy.
  - intros other. rewrite !attendee_line_display. simpl. by rewrite !or_else_truthy.
  - intros H. rewrite attendee_line_display. by rewrite or_else_falsy.
  - rewrite attendee_line_display. unfold display_line. by rewrite H, H0.
  - intros l. simpl. rewrite attendee_line_display. unfold display_line. by rewrite H, H0.
Qed.

Lemma attendee_name_precedence_witness :
  let a := {| email := Some "b@x.com"; name := Some "Bo"; displayName := Some "Boris" |} in
  truthy_opt (displayName a) = true ∧ attendee_line a = Some "Boris b@x.com".
Proof.
  intros a.
  assert (H : truthy_opt (displayName a) = true) by reflexivity.
  split; [exact H|].
  destruct (attendee_name_precedence a) as [P _].
  destruct (P H) as [E _]. rewrite E. reflexivity.
Defined.

(** ** The caption loop *)

Lemma flush_flush_text b acc : flush b acc = b +:+ flush_text acc.
Proof. unfold flush, flush_text. destruct (truthy acc); [done|]. by rewrite app_empty_r. Qed.

Lemma accumulate_empty s : accumulate "" s = s.
Proof. reflexivity. Qed.

Lemma run_header_truthy sm c : truthy (run_header sm c) = true.
Proof.
  unfold run_header. do 3 apply truthy_app_r. done.
Qed.

Lemma caption_step_same sm b last acc c :
  (speaker_id c =? last) = true →
  caption_step sm {| body := b; lastSpeakerId := Some last;
                     currentSpeakerTextAccumulator := acc |} c
  = {| body := b; lastSpeakerId := Some last;
       currentSpeakerTextAccumulator := accumulate acc (sentence c) |}.
Proof. intros E. unfold caption_step. simpl. by rewrite E. Qed.

Lemma caption_step_changed sm b last acc c :
  speaker_changed (speaker_id c) last = true →
  truthy b = true ∨ acc = "" →
  caption_step sm {| body := b; lastSpeakerId := last;
                     currentSpeakerTextAccumulator := acc |} c
  = {| body := b +:+ flush_text acc +:+ (if truthy b then LF else "") +:+ run_header sm c;
       lastSpeakerId := Some (speaker_id c);
       currentSpeakerTextAccumulator := sentence c |}.
Proof.
  intros E Hb. unfold caption_step. simpl. rewrite E. f_equal.
  rewrite flush_flush_text. unfold run_header.
  destruct Hb as [Hb| ->].
  - rewrite Hb, (truthy_app_l b (flush_text acc) Hb). by rewrite !str_app_assoc.
  - simpl. rewrite app_empty_r. destruct (truthy b); by rewrite !str_app_assoc.
Qed.

(** From a state with a current speaker and a body that is not empty, the
    loop followed by the final flush appends [output] to the body. *)
Lemma loop_output sm captions : ∀ b last acc,
  truthy b = true →
  final_flush (caption_loop sm captions
                 {| body := b; lastSpeakerId := Some last;
                    currentSpeakerTextAccumulator := acc |})
  = b +:+ output sm captions last acc.
Proof.
  induction captions as [|c l IH]; intros b last acc Hb.
  - apply flush_flush_text.
  - unfold caption_loop in *. simpl fold_left. simpl output.
    destruct (speaker_id c =? last) eqn:E.
    + rewrite caption_step_same by done. by apply IH.
    + rewrite caption_step_changed by (simpl; rewrite ?E; auto).
      rewrite IH by (do 3 apply truthy_app_r; apply run_header_truthy).
      rewrite Hb. by rewrite !str_app_assoc.
Qed.

Lemma formatBody_nil sm : formatBody sm [] = "".
Proof. reflexivity. Qed.

(** The first caption always opens a block: its header starts the body. *)
Lemma formatBody_cons sm c l :
  formatBody sm (c :: l) =
    run_header sm c +:+ output sm l (speaker_id c) (sentence c).
Proof.
  unfold formatBody, caption_loop, loop_init. simpl fold_left.
  rewrite caption_step_changed by auto. simpl truthy. cbv iota.
  change ("" +:+ flush_text "" +:+ "" +:+ run_header sm c) with (run_header sm c).
  apply (loop_output sm l). apply run_header_truthy.
Qed.

(** ** Speaker runs *)

Lemma runs_head_not_nil l rs : runs l ≠ [] :: rs.
Proof.
  destruct l as [|c l]; simpl; [done|].
  destruct (runs l) as [|[|c' r] rs']; try done.
  by destruct (speaker_id c =? speaker_id c').
Qed.

Lemma runs_concat l : concat (runs l) = l.
Proof.
  induction l as [|c l IH]; [done|]. simpl.
  destruct (runs l) as [|[|c' r] rs] eqn:E.
  - simpl in *. by rewrite <- IH.
  - by apply runs_head_not_nil in E.
  - destruct (speaker_id c =? speaker_id c'); simpl in *; by rewrite <- IH.
Qed.

Lemma runs_same_speaker l :
  Forall (λ r, ∃ c r', r = c :: r'
                       ∧ Forall (λ c', speaker_id c' = speaker_id c) r') (runs l).
Proof.
  induction l as [|c l IH]; simpl; [constructor|].
  destruct (runs l) as [|[|c' r] rs] eqn:E.
  - repeat constructor. by exists c, [].
  - by apply runs_head_not_nil in E.
  - apply Forall_cons in IH as [(c0 & r0 & [= <- <-] & Hr) Hrs].
    destruct (Z.eqb_spec (speaker_id c) (speaker_id c')) as [Heq|Hne].
    + constructor; [|done]. exists c, (c' :: r). split; [done|].
      constructor; [done|]. eapply Forall_impl; [exact Hr|]. simpl. congruence.
    + constructor; [by exists c, []|]. constructor; [|done]. by exists c', r.
Qed.

Lemma runs_maximal l : ∀ pre r1 r2 post,
  runs l = pre ++ r1 :: r2 :: post →
  ∀ c1 c2, last r1 = Some c1 → head r2 = Some c2 → speaker_id c1 ≠ speaker_id c2.
Proof.
  induction l as [|c l IH]; intros pre r1 r2 post E c1 c2 H1 H2.
  { by destruct pre. }
  simpl in E. destruct (runs l) as [|[|c' r] rs] eqn:El.
  - by destruct pre as [|? [|? ?]].
  - by apply runs_head_not_nil in El.
  - destruct (Z.eqb_spec (speaker_id c) (speaker_id c')) as [Heq|Hne].
    + destruct pre as [|p pre]; injection E as <- ->.
      * by apply (IH [] (c' :: r) r2 post eq_refl c1 c2).
      * by apply (IH ((c' :: r) :: pre) r1 r2 post eq_refl c1 c2).
    + destruct pre as [|p pre].
      * injection E as <- <- _. by simplify_eq/=.
      * injection E as <- E. by apply (IH pre r1 r2 post E c1 c2).
Qed.

(** ** Accumulated text *)

Lemma concat_cons_cons sep a b l :
  String.concat sep (a :: b :: l) = a +:+ sep +:+ String.concat sep (b :: l).
Proof. reflexivity. Qed.

Lemma accumulate_all_truthy ts : ∀ acc,
  truthy acc = true → accumulate_all acc ts = String.concat " " (acc :: ts).
Proof.
  induction ts as [|t ts IH]; intros acc Hacc; [done|].
  unfold accumulate_all in *. simpl fold_left. unfold accumulate at 2. rewrite Hacc.
  rewrite IH by by apply truthy_app_l.
  rewrite concat_cons_cons. destruct ts as [|t' ts]; [done|].
  by rewrite !concat_cons_cons, !str_app_assoc.
Qed.

Lemma accumulate_all_cons acc t ts :
  accumulate_all acc (t :: ts) = accumulate_all (accumulate acc t) ts.
Proof. reflexivity. Qed.

Lemma flush_text_accumulate_all ts :
  flush_text (accumulate_all "" ts) =
    if forallb (λ t, negb (truthy t)) ts then ""
    else trim (String.concat " " ts) +:+ LF.
Proof.
  induction ts as [|t ts IH]; [done|].
  rewrite accumulate_all_cons, accumulate_empty. simpl forallb.
  destruct t as [|ch t]; simpl negb; simpl andb.
  - rewrite IH. destruct (forallb _ ts) eqn:E; [done|].
    destruct ts as [|t' ts]; [done|]. by rewrite concat_cons_cons.
  - rewrite accumulate_all_truthy by done. unfold flush_text.
    by rewrite concat_truthy.
Qed.

Lemma run_text_accumulate r :
  run_text r = flush_text (accumulate_all "" (map sentence r)).
Proof.
  rewrite flush_text_accumulate_all. unfold run_text.
  assert (forallb (λ t, negb (truthy t)) (map sentence r)
          = forallb (λ c, negb (truthy (sentence c))) r) as ->; [|done].
  induction r as [|c r IH]; simpl; congruence.
Qed.

(** ** From the loop to the runs *)

Lemma blocks_after_cons sm c r rs :
  blocks_after sm ((c :: r) :: rs) =
    LF +:+ run_header sm c +:+
    flush_text (accumulate_all (sentence c) (map sentence r)) +:+ blocks_after sm rs.
Proof.
  simpl. unfold run_block. rewrite run_text_accumulate. simpl map.
  by rewrite accumulate_all_cons, accumulate_empty, !str_app_assoc.
Qed.

Lemma output_runs sm l : ∀ last acc,
  output sm l last acc = output_of_runs sm (runs l) last acc.
Proof.
  induction l as [|c l IH]; intros last acc; [done|].
  simpl output. simpl runs. rewrite !IH.
  destruct (runs l) as [|[|c' r] rs] eqn:El.
  - unfold output_of_runs. rewrite blocks_after_cons. simpl.
    destruct (speaker_id c =? last); by rewrite ?app_empty_r.
  - by apply runs_head_not_nil in El.
  - unfold output_of_runs. simpl map. rewrite !accumulate_all_cons.
    destruct (Z.eqb_spec (speaker_id c) last) as [<-|Hl];
      destruct (Z.eqb_spec (speaker_id c) (speaker_id c')) as [Hc|Hc];
      destruct (Z.eqb_spec (speaker_id c') (speaker_id c)) as [Hc'|Hc'];
      try congruence;
      rewrite ?Z.eqb_refl;
      try (destruct (Z.eqb_spec (speaker_id c') last); [congruence|]);
      try (destruct (Z.eqb_spec (speaker_id c) last); [congruence|]);
      rewrite ?blocks_after_cons; simpl map;
      by rewrite ?accumulate_all_cons, ?str_app_assoc.
Qed.

Lemma concat_blocks_after sm rs : ∀ r,
  String.concat LF (map (run_block sm) (r :: rs)) = run_block sm r +:+ blocks_after sm rs.
Proof.
  induction rs as [|r' rs IH]; intros r.
  - simpl. by rewrite app_empty_r.
  - simpl map. rewrite concat_cons_cons. simpl map in IH. by rewrite IH.
Qed.

Lemma formatBody_concat sm l :
  formatBody sm l = String.concat LF (map (run_block sm) (runs l)).
Proof.
  destruct l as [|c l]; [done|].
  rewrite formatBody_cons, output_runs. simpl runs.
  destruct (runs l) as [|[|c' r] rs] eqn:El.
  - simpl. by rewrite run_text_accumulate.
  - by apply runs_head_not_nil in El.
  - unfold output_of_runs. rewrite (Z.eqb_sym (speaker_id c')).
    destruct (speaker_id c =? speaker_id c'); rewrite concat_blocks_after;
      unfold run_block at 1; rewrite run_text_accumulate; simpl map;
      rewrite ?blocks_after_cons, !accumulate_all_cons, !accumulate_empty;
      by rewrite ?str_app_assoc.
Qed.

(** C1. The body is the blocks of the speaker runs, one block per run, in
    the order of the captions, with a line feed between blocks.  The runs
    are the maximal ones: put end to end they give back the captions, each
    run has one speaker id throughout, and two neighbouring runs differ in
    speaker id.  A block is the time stamp of the run's first caption, the
    speaker's name, and then the text line: the sentences of the whole run
    joined by single spaces (trimmed), left out when they are all empty. *)
Theorem formatBody_one_block_per_run (speakerMeta : gmap string string)
    (captions : list Caption) :
  formatBody speakerMeta captions =
    String.concat LF (map (run_block speakerMeta) (runs captions))
  ∧ concat (runs captions) = captions
  ∧ Forall (λ r, ∃ c r',
        r = c :: r'
        ∧ Forall (λ c', speaker_id c' = speaker_id c) r'
        ∧ run_block speakerMeta r =
            formatTime (time c) +:+ LF +:+
            speakerName speakerMeta (speaker_id c) +:+ LF +:+ run_text r
        ∧ (run_text r = ""
           ∨ run_text r = trim (String.concat " " (map sentence r)) +:+ LF))
      (runs captions)
  ∧ (∀ pre r1 r2 post, runs captions = pre ++ r1 :: r2 :: post →
     ∀ c1 c2, last r1 = Some c1 → head r2 = Some c2 →
     speaker_id c1 ≠ speaker_id c2).
Proof.
  split; [apply formatBody_concat|].
  split; [apply runs_concat|].
  split; [|apply runs_maximal].
  eapply Forall_impl; [apply runs_same_speaker|].
  intros r (c & r' & -> & Hr). exists c, r'. repeat split; [done| |].
  - unfold run_block, run_header. by rewrite !str_app_assoc.
  - unfold run_text. destruct (forallb _ _); auto.
Qed.

Lemma formatBody_one_block_per_run_witness :
  runs standup_captions =
    [] ++ [caption 0 "Hi" 0; caption 0 "team" 2] :: [caption 1 "Hey" 5] :: []
  ∧ last [caption 0 "Hi" 0; caption 0 "team" 2] = Some (caption 0 "team" 2)
  ∧ head [caption 1 "Hey" 5] = Some (caption 1 "Hey" 5)
  ∧ speaker_id (caption 0 "team" 2) ≠ speaker_id (caption 1 "Hey" 5).
Proof.
  assert (E : runs standup_captions =
    [] ++ [caption 0 "Hi" 0; caption 0 "team" 2] :: [caption 1 "Hey" 5] :: [])
    by reflexivity.
  split; [exact E|]. split; [reflexivity|]. split; [reflexivity|].
  exact (proj2 (proj2 (proj2
    (formatBody_one_block_per_run standup_speakerMeta standup_captions)))
    _ _ _ _ E _ _ eq_refl eq_refl).
Defined.

(** C6. The loop starts with no speaker: its [lastSpeakerId] equals no
    speaker id, 0 included.  So the first caption, whatever its speaker,
    takes the speaker-change branch, and its time stamp and speaker name
    are the first two lines of the body. *)
Theorem first_caption_opens_block (speakerMeta : gmap string string)
    (c : Caption) (l : list Caption) :
  (∀ id, lastSpeakerId loop_init ≠ Some id)
  ∧ speaker_changed 0 (lastSpeakerId loop_init) = true
  ∧ speaker_changed (speaker_id c) (lastSpeakerId loop_init) = true
  ∧ body (caption_step speakerMeta loop_init c) =
      formatTime (time c) +:+ LF +:+ speakerName speakerMeta (speaker_id c) +:+ LF
  ∧ ∃ rest,
      formatBody speakerMeta (c :: l) =
        formatTime (time c) +:+ LF +:+
        speakerName speakerMeta (speaker_id c) +:+ LF +:+ rest.
Proof.
  split; [done|]. split; [done|]. split; [done|]. split.
  - unfold loop_init. by rewrite caption_step_changed by auto.
  - exists (output speakerMeta l (speaker_id c) (sentence c)).
    rewrite formatBody_cons. unfold run_header. by rewrite !str_app_assoc.
Qed.

(** C9. A caption of the current speaker is accumulated whatever its
    sentence: once the accumulator holds text, a space and the sentence are
    appended to it, also when the sentence is empty or blank.  So in a run
    of three captions whose middle sentence is empty, two spaces separate
    the first sentence from the third in the text line; the trimming of
    the line does not touch them. *)
Theorem empty_sentence_accumulates (speakerMeta : gmap string string) :
  (∀ st c,
     lastSpeakerId st = Some (speaker_id c) →
     currentSpeakerTextAccumulator st ≠ "" →
     currentSpeakerTextAccumulator (caption_step speakerMeta st c) =
       currentSpeakerTextAccumulator st +:+ " " +:+ sentence c
     ∧ body (caption_step speakerMeta st c) = body st)
  ∧ (∀ id s1 s3 t1 t2 t3,
     s1 ≠ "" →
     formatBody speakerMeta [caption id s1 t1; caption id "" t2; caption id s3 t3] =
       formatTime t1 +:+ LF +:+ speakerName speakerMeta id +:+ LF +:+
       trim (s1 +:+ "  " +:+ s3) +:+ LF)
  ∧ formatBody standup_speakerMeta
      [caption 0 "Hi" 0; caption 0 "" 1; caption 0 "team" 2] =
      "00:00" +:+ LF +:+ "Bo" +:+ LF +:+ "Hi  team" +:+ LF.
Proof.
  split; [|split]; [| |by vm_compute].
  - intros [b last acc] c. simpl. intros -> Hacc.
    apply truthy_true in Hacc.
    rewrite caption_step_same by apply Z.eqb_refl. simpl.
    unfold accumulate. by rewrite Hacc.
  - intros id s1 s3 t1 t2 t3 Hs1. apply truthy_true in Hs1.
    rewrite formatBody_cons. simpl. rewrite !Z.eqb_refl.
    unfold accumulate. rewrite Hs1. rewrite (truthy_app_l s1 (" " +:+ "") Hs1).
    unfold flush_text. rewrite (truthy_app_l _ _ (truthy_app_l s1 (" " +:+ "") Hs1)).
    unfold run_header. simpl. by rewrite !str_app_assoc.
Qed.

Lemma empty_sentence_accumulates_witness :
  lastSpeakerId {| body := "00:00" +:+ LF +:+ "Bo" +:+ LF; lastSpeakerId := Some 0;
                   currentSpeakerTextAccumulator := "Hi" |}
    = Some (speaker_id (caption 0 " " 1))
  ∧ "Hi" ≠ ""
  ∧ currentSpeakerTextAccumulator
      (caption_step standup_speakerMeta
         {| body := "00:00" +:+ LF +:+ "Bo" +:+ LF; lastSpeakerId := Some 0;
            currentSpeakerTextAccumulator := "Hi" |}
         (caption 0 " " 1))
    = "Hi  ".
Proof.
  assert (H1 : lastSpeakerId
                 {| body := "00:00" +:+ LF +:+ "Bo" +:+ LF; lastSpeakerId := Some 0;
                    currentSpeakerTextAccumulator := "Hi" |}
               = Some (speaker_id (caption 0 " " 1))) by reflexivity.
  assert (H2 : "Hi" ≠ "") by discriminate.
  split; [exact H1|]. split; [exact H2|].
  exact (proj1 (proj1 (empty_sentence_accumulates standup_speakerMeta) _ _ H1 H2)).
Defined.

(** ** The first character of the body *)

Lemma digit_not_white_space c : is_digit_or_minus c = true → is_white_space c = false.
Proof. by destruct c as [[] [] [] [] [] [] [] []]. Qed.

Lemma Number_toString_head n : starts_numeric (Number_toString n) = true.
Proof.
  unfold Number_toString. destruct (Z.to_int n) as [u|u]; [by destruct u|done].
Qed.

Lemma padStart_head s :
  starts_numeric s = true → starts_numeric (padStart 2 "0" s) = true.
Proof. by destruct s as [|c [|d s]]. Qed.

Lemma starts_numeric_app s t :
  starts_numeric s = true → starts_numeric (s +:+ t) = true.
Proof. by destruct s. Qed.

Lemma formatTime_head t : starts_numeric (formatTime t) = true.
Proof.
  unfold formatTime. apply starts_numeric_app, padStart_head, Number_toString_head.
Qed.

Lemma starts_numeric_trim s :
  starts_numeric s = true → starts_numeric (trim s) = true.
Proof.
  destruct s as [|c s]; [done|]. simpl. intros Hc.
  by rewrite trim_cons by by apply digit_not_white_space.
Qed.

(** With a caption to print, the body begins with a time stamp, and so does
    what trimming leaves of it. *)
Lemma formatBody_head sm c l : starts_numeric (trim (formatBody sm (c :: l))) = true.
Proof.
  apply starts_numeric_trim. rewrite formatBody_cons. unfold run_header.
  apply starts_numeric_app, starts_numeric_app, formatTime_head.
Qed.

(** ** Joining header and body *)

Lemma trimEnd_app_blank s t : trimEnd t = "" → trimEnd (s +:+ t) = trimEnd s.
Proof.
  intros Ht. induction s as [|c s IH]; [done|].
  rewrite app_String. simpl. by rewrite IH.
Qed.

Lemma trim_app_LF_LF s : trim (s +:+ LF +:+ LF) = trim s.
Proof.
  unfold trim. destruct (truthy (trimStart s)) eqn:E.
  - apply truthy_true in E. rewrite trimStart_app by done.
    by apply trimEnd_app_blank.
  - apply truthy_false in E. rewrite trimStart_app_blank by done. by rewrite E.
Qed.

(** With a body that has something left after trimming, the joined text is
    the header from its first character that is not white space, a blank
    line, and the trimmed body; a blank header leaves the trimmed body. *)
Lemma join_header_body_nonblank h b :
  trim b ≠ "" →
  join_header_body h b =
    if truthy (trimStart h) then trimStart h +:+ LF +:+ LF +:+ trim b else trim b.
Proof.
  intros Hb. unfold join_header_body.
  assert (Hend : trimEnd (trim b) = trim b) by apply trimEnd_trim.
  assert (Hstart : trimStart (trim b) = trim b) by apply trimStart_trim.
  destruct (truthy (trimStart h)) eqn:E.
  - assert (truthy h = true) as -> by (destruct h; done).
    apply truthy_true in E. unfold trim at 1. rewrite trimStart_app by done.
    rewrite <- !str_app_assoc. rewrite trimEnd_app by by rewrite Hend.
    by rewrite Hend.
  - apply truthy_false in E. destruct (truthy h); [|done].
    unfold trim at 1. rewrite trimStart_app_blank by done.
    change (trimStart (LF +:+ LF +:+ trim b)) with (trimStart (trim b)).
    by rewrite Hstart, Hend.
Qed.

Lemma join_header_body_empty h : join_header_body h "" = trim h.
Proof.
  unfold join_header_body. destruct h as [|c h]; [done|].
  simpl truthy. cbv iota. change (LF +:+ LF +:+ trim "") with (LF +:+ LF).
  apply trim_app_LF_LF.
Qed.

Lemma join_header_body_trimmed h b :
  trimEnd (join_header_body h b) = join_header_body h b
  ∧ trimStart (join_header_body h b) = join_header_body h b.
Proof.
  unfold join_header_body. destruct (truthy h); split;
    auto using trimEnd_trim, trimStart_trim.
Qed.

Lemma trim_fixed_trimStart h : trim h = h → trimStart h = h.
Proof. intros <-. apply trimStart_trim. Qed.

(** C8, as the code has it.  With no captions the result is the header
    trimmed: the header itself when it has no white space at its ends,
    nothing when it is blank.  With captions the body is not empty and
    neither is what trimming leaves of it; the result is then the header
    from its first character that is not white space, one blank line and
    the trimmed body, and the trimmed body alone when the header is empty
    or blank.  So a header with no white space at its ends is kept whole
    and followed by exactly one blank line.  In every case nothing can be
    trimmed from the result at either end. *)
Theorem header_body_join (note : MeetingNote) (meetingUrl : option string)
    (caps : list Caption) (sm : gmap string string) :
  captions note = Some caps →
  speakerMeta note = Some sm →
  let header := formatHeader (title note) (date note) meetingUrl (attendees note) in
  let body := formatBody sm caps in
  let result := formatTranscript (Some note) meetingUrl in
  (body = "" ↔ caps = [])
  ∧ (caps = [] → result = trim header)
  ∧ (caps ≠ [] →
     trim body ≠ ""
     ∧ result = if truthy (trimStart header)
                then trimStart header +:+ LF +:+ LF +:+ trim body
                else trim body)
  ∧ trimEnd result = result
  ∧ trimStart result = result
  ∧ (trim header = header → header ≠ "" → caps ≠ [] →
     result = header +:+ LF +:+ LF +:+ trim body)
  ∧ (trim header = header → caps = [] → result = header).
Proof.
  intros Hc Hs header body result.
  assert (E : result = join_header_body header body).
  { subst result. unfold formatTranscript. by rewrite Hc, Hs. }
  assert (Hbody : caps ≠ [] → trim body ≠ "").
  { subst body. destruct caps as [|c l]; [done|]. intros _ Ht.
    pose proof (formatBody_head sm c l) as Hhead. by rewrite Ht in Hhead. }
  rewrite E. split; [|split; [|split; [|split; [|split; [|split]]]]].
  - subst body. destruct caps as [|c l]; [done|]. split; [|done].
    rewrite formatBody_cons. intros Hb.
    pose proof (truthy_app_l _ (output sm l (speaker_id c) (sentence c))
                  (run_header_truthy sm c)) as Ht.
    by rewrite Hb in Ht.
  - intros ->. subst body. by rewrite formatBody_nil, join_header_body_empty.
  - intros Hne. split; [by apply Hbody|].
    by rewrite join_header_body_nonblank by auto.
  - apply join_header_body_trimmed.
  - apply join_header_body_trimmed.
  - intros Hfix Hh Hne. rewrite join_header_body_nonblank by auto.
    rewrite (trim_fixed_trimStart _ Hfix). apply truthy_true in Hh. by rewrite Hh.
  - intros Hfix ->. subst body. by rewrite formatBody_nil, join_header_body_empty.
Qed.

Lemma header_body_join_witness :
  captions standup = Some standup_captions
  ∧ speakerMeta standup = Some standup_speakerMeta
  ∧ standup_captions ≠ []
  ∧ formatTranscript (Some standup) None =
      ("Standup | 2024-01-01" +:+ LF +:+ LF +:+ "Bo b@x.com") +:+ LF +:+ LF +:+
      trim (formatBody standup_speakerMeta standup_captions).
Proof.
  assert (H1 : captions standup = Some standup_captions) by reflexivity.
  assert (H2 : speakerMeta standup = Some standup_speakerMeta) by reflexivity.
  assert (H3 : standup_captions ≠ []) by discriminate.
  split; [exact H1|]. split; [exact H2|]. split; [exact H3|].
  destruct (header_body_join standup None _ _ H1 H2) as (_ & _ & _ & _ & _ & Hjoin & _).
  apply Hjoin; [reflexivity|discriminate|exact H3].
Defined.

(** C8 as stated fails on a header that is not empty but blank, or that
    ends in white space.  Both records have a header that is not empty
    and a body that is not empty.  With the title of one space the result
    is the body alone: no header and no blank line.  With the title that
    ends in a line feed two blank lines separate header and body. *)
Lemma header_not_joined_by_one_blank_line :
  formatHeader (title blank_titled) (date blank_titled) None (attendees blank_titled) = " "
  ∧ formatBody standup_speakerMeta [caption 0 "Hi" 0] =
      "00:00" +:+ LF +:+ "Bo" +:+ LF +:+ "Hi" +:+ LF
  ∧ formatTranscript (Some blank_titled) None =
      "00:00" +:+ LF +:+ "Bo" +:+ LF +:+ "Hi"
  ∧ formatHeader (title newline_titled) (date newline_titled) None
      (attendees newline_titled) = "Standup" +:+ LF
  ∧ formatTranscript (Some newline_titled) None =
      "Standup" +:+ LF +:+ LF +:+ LF +:+ "00:00" +:+ LF +:+ "Bo" +:+ LF +:+ "Hi".
Proof. repeat split; by vm_compute. Qed.

(** ** The diagnostic *)

Lemma occurs_app_r c s t : occurs c t = true → occurs c (s +:+ t) = true.
Proof.
  intros H. induction s as [|d s IH]; [done|]. rewrite app_String. simpl.
  rewrite IH. apply orb_true_r.
Qed.

Lemma occurs_app_l c s t : occurs c s = true → occurs c (s +:+ t) = true.
Proof.
  induction s as [|d s IH]; [done|]. rewrite app_String. simpl.
  destruct (Ascii.eqb d c); [done|]. exact IH.
Qed.

Lemma join_header_body_not_diagnostic h sm c l :
  join_header_body h (formatBody sm (c :: l)) ≠ MISSING_DATA.
Proof.
  pose proof (formatBody_head sm c l) as Hhead.
  assert (Hne : trim (formatBody sm (c :: l)) ≠ "").
  { intros E. by rewrite E in Hhead. }
  rewrite join_header_body_nonblank by done.
  destruct (truthy (trimStart h)).
  - intros E.
    assert (Hocc : occurs "010" MISSING_DATA = true); [|done].
    rewrite <- E. apply occurs_app_r, occurs_app_l. done.
  - intros E. by rewrite E in Hhead.
Qed.

(** C3, as the code has it.  Without a record, without captions or
    without speaker directory the result is the diagnostic.  With both
    present and a caption to print the result is never the diagnostic,
    whatever title, date, attendees and URL are.  With both present and no
    caption the result is the trimmed header. *)
Theorem missing_data_diagnostic :
  (∀ meetingUrl, formatTranscript None meetingUrl = MISSING_DATA)
  ∧ (∀ note meetingUrl,
       captions note = None ∨ speakerMeta note = None →
       formatTranscript (Some note) meetingUrl = MISSING_DATA)
  ∧ (∀ note meetingUrl caps sm,
       captions note = Some caps → speakerMeta note = Some sm → caps ≠ [] →
       formatTranscript (Some note) meetingUrl ≠ MISSING_DATA)
  ∧ (∀ note meetingUrl sm,
       captions note = Some [] → speakerMeta note = Some sm →
       formatTranscript (Some note) meetingUrl =
         trim (formatHeader (title note) (date note) meetingUrl (attendees note))).
Proof.
  split; [done|]. split; [|split].
  - intros note meetingUrl [H|H]; unfold formatTranscript; rewrite H; [done|].
    by destruct (captions note).
  - intros note meetingUrl caps sm Hc Hs Hne. unfold formatTranscript.
    rewrite Hc, Hs. destruct caps as [|c l]; [done|].
    apply join_header_body_not_diagnostic.
  - intros note meetingUrl sm Hc Hs. unfold formatTranscript.
    rewrite Hc, Hs, formatBody_nil. apply join_header_body_empty.
Qed.

Lemma missing_data_diagnostic_witness :
  (captions standup = Some standup_captions
   ∧ speakerMeta standup = Some standup_speakerMeta
   ∧ standup_captions ≠ [])
  ∧ formatTranscript (Some standup) None ≠ MISSING_DATA.
Proof.
  assert (H1 : captions standup = Some standup_captions) by reflexivity.
  assert (H2 : speakerMeta standup = Some standup_speakerMeta) by reflexivity.
  assert (H3 : standup_captions ≠ []) by discriminate.
  split; [by repeat split|].
  exact (proj1 (proj2 (proj2 missing_data_diagnostic)) standup None _ _ H1 H2 H3).
Defined.

(** C3 as stated fails: this record has captions and a speaker directory,
    and the result is the diagnostic string, which is its title. *)
Lemma diagnostic_with_data_present :
  captions error_titled = Some []
  ∧ speakerMeta error_titled = Some ∅
  ∧ formatTranscript (Some error_titled) None = MISSING_DATA.
Proof. repeat split. Qed.

(** ** End to end *)

(** C4. The record of the example, without a URL, gives the text of the
    example: title and date, the attendee, then the two speaker blocks. *)
Theorem standup_transcript :
  formatTranscript (Some standup) None =
    "Standup | 2024-01-01" +:+ LF +:+
    LF +:+
    "Bo b@x.com" +:+ LF +:+
    LF +:+
    "00:00" +:+ LF +:+
    "Bo" +:+ LF +:+
    "Hi team" +:+ LF +:+
    LF +:+
    "00:05" +:+ LF +:+
    "Amy" +:+ LF +:+
    "Hey".
Proof. vm_compute. reflexivity. Qed.

(** * Properties of the rest of the script *)

(** ** startsWith, includes and split *)

Lemma startsWith_empty s : startsWith s "" = true.
Proof. by destruct s. Qed.

Lemma startsWith_app s p b : startsWith s p = true → startsWith (s +:+ b) p = true.
Proof.
  revert s. induction p as [|a p IH]; intros s H; [apply startsWith_empty|].
  destruct s as [|c s]; [done|]. rewrite ?app_String. simpl in *.
  apply andb_true_iff in H as [-> H]. simpl. by apply IH.
Qed.

Lemma includes_empty s : includes s "" = true.
Proof. by destruct s. Qed.

Lemma includes_app_r s sub b : includes s sub = true → includes (s +:+ b) sub = true.
Proof.
  induction s as [|c s IH]; simpl.
  - destruct sub; [intros _; apply includes_empty|done].
  - intros H. rewrite ?app_String. apply orb_true_iff in H as [H|H].
    + pose proof (startsWith_app (String c s) sub b H) as H'.
      rewrite ?app_String in H'. apply orb_true_iff. by left.
    + apply orb_true_iff. right. by apply IH.
Qed.

Lemma includes_app_l a s sub : includes s sub = true → includes (a +:+ s) sub = true.
Proof.
  intros H. induction a as [|c a IH]; [done|].
  rewrite ?app_String. simpl. rewrite IH. apply orb_true_r.
Qed.

Lemma includes_substring a s b sub :
  includes s sub = true → includes (a +:+ s +:+ b) sub = true.
Proof. intros H. by apply includes_app_l, includes_app_r. Qed.

Lemma includes_char s c : includes s (String c "") = occurs c s.
Proof.
  induction s as [|d s IH]; [done|]. simpl. rewrite IH.
  by rewrite andb_true_r.
Qed.

Lemma occurs_substring c a s b :
  occurs c s = true → occurs c (a +:+ s +:+ b) = true.
Proof. intros H. by apply occurs_app_r, occurs_app_l. Qed.

Lemma split_go_cons sep c r k :
  split_go sep (String c r) k =
    match k with
    | S k' => split_go sep r k'
    | O =>
        if startsWith (String c r) sep
        then "" :: split_go sep r (String.length sep - 1)
        else match split_go sep r 0 with
             | h :: t => String c h :: t
             | [] => [String c ""]
             end
    end.
Proof. reflexivity. Qed.

(** The parts [split] returns are pieces of the string, and the first of
    them starts it. *)
Lemma split_go_parts sep s : ∀ k,
  match split_go sep s k with
  | h :: t =>
      (∃ a b, s = a +:+ h +:+ b ∧ (k = 0%nat → a = ""))
      ∧ Forall (λ p, ∃ a b, s = a +:+ p +:+ b) t
  | [] => False
  end.
Proof.
  induction s as [|c r IH]; intros k.
  { simpl. split; [by exists "", ""|constructor]. }
  assert (Hlift : ∀ p, (∃ a b, r = a +:+ p +:+ b) →
                       ∃ a b, String c r = a +:+ p +:+ b).
  { intros p (a & b & ->). by exists (String c a), b. }
  rewrite split_go_cons. destruct k as [|k].
  - destruct (startsWith (String c r) sep).
    + split; [by exists "", (String c r)|].
      specialize (IH (String.length sep - 1)%nat).
      destruct (split_go sep r (String.length sep - 1)) as [|h t]; [done|].
      destruct IH as [(a & b & Hh & _) Ht]. constructor.
      * apply Hlift. by exists a, b.
      * eapply Forall_impl; [exact Ht|exact Hlift].
    + specialize (IH 0%nat). destruct (split_go sep r 0) as [|h t]; [done|].
      destruct IH as [(a & b & Hh & Ha) Ht]. split.
      * exists "", b. split; [|done]. rewrite Hh, (Ha eq_refl). done.
      * eapply Forall_impl; [exact Ht|exact Hlift].
  - specialize (IH k). destruct (split_go sep r k) as [|h t]; [done|].
    destruct IH as [(a & b & Hh & _) Ht]. split.
    + exists (String c a), b. split; [by rewrite Hh|done].
    + eapply Forall_impl; [exact Ht|exact Hlift].
Qed.

Lemma split_part_substring s sep p :
  p ∈ split s sep → ∃ a b, s = a +:+ p +:+ b.
Proof.
  unfold split. intros Hin. pose proof (split_go_parts sep s 0) as H.
  destruct (split_go sep s 0) as [|h t]; [done|].
  destruct H as [(a & b & Hh & _) Ht].
  apply elem_of_cons in Hin as [->|Hin]; [by exists a, b|].
  rewrite Forall_forall in Ht. by apply Ht.
Qed.

(** No part contains the separator. *)
Lemma split_go_no_sep sep s : sep ≠ "" → ∀ k,
  Forall (λ p, includes p sep = false) (split_go sep s k).
Proof.
  intros Hsep. induction s as [|c r IH]; intros k.
  { simpl. constructor; [by destruct sep|constructor]. }
  rewrite split_go_cons. destruct k as [|k]; [|apply IH].
  destruct (startsWith (String c r) sep) eqn:E.
  - constructor; [by destruct sep|apply IH].
  - pose proof (split_go_parts sep r 0) as Hparts. specialize (IH 0%nat).
    destruct (split_go sep r 0) as [|h t]; [done|].
    destruct Hparts as [(a & b & Hh & Ha) _]. rewrite (Ha eq_refl) in Hh.
    apply Forall_cons in IH as [Hh' Ht]. constructor; [|done].
    simpl. rewrite Hh'. rewrite orb_false_r.
    destruct (startsWith (String c h) sep) eqn:E'; [|done].
    apply (startsWith_app _ _ b) in E'. rewrite ?app_String in E'.
    change ("" +:+ h +:+ b) with (h +:+ b) in Hh. rewrite <- Hh in E'. congruence.
Qed.

Lemma split_part_no_sep s sep p : sep ≠ "" → p ∈ split s sep → includes p sep = false.
Proof.
  intros Hsep Hin. pose proof (split_go_no_sep sep s Hsep 0) as H.
  rewrite Forall_forall in H. by apply H.
Qed.

(** A string without the separator is its own single part. *)
Lemma split_without_sep s sep : sep ≠ "" → includes s sep = false → split s sep = [s].
Proof.
  intros Hsep. unfold split. induction s as [|c r IH]; [done|].
  rewrite split_go_cons. intros H.
  change (includes (String c r) sep) with (startsWith (String c r) sep || includes r sep) in H.
  apply orb_false_iff in H as [H1 H2]. by rewrite H1, (IH H2).
Qed.

Lemma split_colons_cons name t :
  occurs ":" name = false →
  split (name +:+ "::" +:+ t) "::" = name :: split t "::".
Proof.
  unfold split. induction name as [|c n IH]; [reflexivity|].
  intros H. simpl in H. apply orb_false_iff in H as [Hc Hn].
  rewrite app_String, split_go_cons.
  change (startsWith (String c (n +:+ "::" +:+ t)) "::")
    with (Ascii.eqb c ":" && startsWith (n +:+ "::" +:+ t) ":").
  by rewrite Hc, (IH Hn).
Qed.

Lemma split_head_substring c s : ∃ b, s = split_head c s +:+ b.
Proof.
  destruct (split_head_prefix c s) as [H|[rest H]].
  - exists "". by rewrite app_empty_r.
  - by exists (String c rest).
Qed.

(** ** The meeting id in the address *)

Lemma take_while_all f s : all_chars f (take_while f s) = true.
Proof.
  induction s as [|c s IH]; [done|]. simpl.
  destruct (f c) eqn:E; [|done]. simpl. by rewrite E.
Qed.

Lemma take_while_group g rest :
  all_chars id_char g = true → ends_group rest = true →
  take_while id_char (g +:+ rest) = g.
Proof.
  intros Hg Hrest. induction g as [|c g IH].
  - destruct rest as [|c rest]; [done|]. simpl in *.
    apply negb_true_iff in Hrest. by rewrite Hrest.
  - simpl in Hg. apply andb_true_iff in Hg as [Hc Hg].
    rewrite app_String. simpl. by rewrite Hc, (IH Hg).
Qed.

Lemma all_chars_app f s t :
  all_chars f s = true → all_chars f t = true → all_chars f (s +:+ t) = true.
Proof.
  intros Hs Ht. induction s as [|c s IH]; [done|].
  simpl in Hs. apply andb_true_iff in Hs as [Hc Hs].
  rewrite app_String. simpl. by rewrite Hc, (IH Hs).
Qed.

Lemma all_chars_occurs f c s :
  f c = false → all_chars f s = true → occurs c s = false.
Proof.
  intros Hc. induction s as [|d s IH]; [done|]. simpl.
  intros H. apply andb_true_iff in H as [Hd Hs]. rewrite (IH Hs).
  destruct (Ascii.eqb_spec d c) as [->|]; [congruence|done].
Qed.

Lemma match_view_here_view x g :
  take_while id_char x = g → g ≠ "" → match_view ("view/" +:+ x) = Some g.
Proof.
  intros Hx Hg. apply truthy_true in Hg.
  change ("view/" +:+ x)
    with (String "v" (String "i" (String "e" (String "w" (String "/" x))))).
  unfold match_view. unfold match_view_here. simpl startsWith. simpl drop_chars.
  cbv iota. by rewrite Hx, Hg.
Qed.

(** In the address of a meeting page the expression first matches right
    after the host. *)
Lemma match_view_page x g :
  take_while id_char x = g → g ≠ "" → match_view (VIEW_PREFIX +:+ x) = Some g.
Proof.
  intros Hx Hg. rewrite <- (match_view_here_view x g Hx Hg).
  change (VIEW_PREFIX +:+ x) with ("https://app.fireflies.ai/" +:+ "view/" +:+ x).
  generalize ("view/" +:+ x). intros y.
  repeat (rewrite app_String;
          match goal with
          | |- match_view (String ?c ?r) = _ =>
              change (match_view (String c r)) with (match_view r)
          end).
  reflexivity.
Qed.

Lemma match_view_group s g :
  match_view s = Some g → all_chars id_char g = true ∧ g ≠ "".
Proof.
  induction s as [|c s IH]; [done|]. simpl.
  destruct (match_view_here (String c s)) as [g'|] eqn:E; [|done].
  intros [= <-]. unfold match_view_here in E.
  destruct (startsWith _ _); [|done].
  destruct (truthy (take_while _ _)) eqn:Ht; [|done].
  injection E as <-. split; [apply take_while_all|by apply truthy_true].
Qed.

Lemma match_view_includes s g : match_view s = Some g → includes s "view/" = true.
Proof.
  induction s as [|c s IH]; [done|]. simpl match_view.
  change (includes (String c s) "view/")
    with (startsWith (String c s) "view/" || includes s "view/").
  unfold match_view_here. destruct (startsWith (String c s) "view/"); [done|].
  intros H. simpl. by apply IH.
Qed.

Lemma lookup_split_1 s sep p :
  (if (1 <? length (split s sep))%nat then split s sep !! 1%nat else None) = Some p →
  p ∈ split s sep.
Proof.
  destruct (1 <? length (split s sep))%nat; [|done].
  intros H. by eapply list_elem_of_lookup_2.
Qed.

Lemma legacy_id_parts href id :
  getMeetingNoteIdFromUrl_legacy href = Some id →
  ∃ seg part, seg ∈ split href "/" ∧ includes seg "::" = true
              ∧ part ∈ split seg "::" ∧ id = split_head "?" part.
Proof.
  unfold getMeetingNoteIdFromUrl_legacy.
  destruct (find _ _) as [seg|] eqn:Ef; [|done].
  apply find_some in Ef as [Hin Hinc]. apply list_elem_of_In in Hin.
  destruct (truthy seg); [|done].
  destruct (1 <? length (split seg "::"))%nat eqn:El; [|done].
  destruct (split seg "::" !! 1%nat) as [part|] eqn:Ep; [|done].
  intros [= <-]. exists seg, part. repeat split; try done.
  by eapply list_elem_of_lookup_2.
Qed.

(** X1. On a meeting page whose address carries a plain id after
    [/view/] (no "::" in it), that id is returned, whatever follows it
    after a "/", "?" or "#". *)
Theorem meeting_id_new_format (id rest : string) :
  id ≠ "" →
  all_chars id_char id = true →
  includes id "::" = false →
  ends_group rest = true →
  getMeetingNoteIdFromUrl (VIEW_PREFIX +:+ id +:+ rest) = Some id.
Proof.
  intros Hid Hchars Hcolons Hrest. unfold getMeetingNoteIdFromUrl.
  rewrite (match_view_page _ id (take_while_group id rest Hchars Hrest) Hid).
  apply truthy_true in Hid. by rewrite Hid, Hcolons.
Qed.

Lemma meeting_id_new_format_witness :
  getMeetingNoteIdFromUrl (VIEW_PREFIX +:+ "01HABC" +:+ "?ref=home") = Some "01HABC".
Proof.
  apply (meeting_id_new_format "01HABC" "?ref=home"); [discriminate|reflexivity..].
Defined.

(** X2. With the older form [name::id] after [/view/], where the name
    has no colon and the id no "::", the id is returned; it may be empty. *)
Theorem meeting_id_old_format (name id rest : string) :
  all_chars id_char name = true →
  occurs ":" name = false →
  all_chars id_char id = true →
  includes id "::" = false →
  ends_group rest = true →
  getMeetingNoteIdFromUrl (VIEW_PREFIX +:+ (name +:+ "::" +:+ id) +:+ rest) = Some id.
Proof.
  intros Hname Hcolon Hid Hcolons Hrest. unfold getMeetingNoteIdFromUrl.
  assert (Hchars : all_chars id_char (name +:+ "::" +:+ id) = true).
  { apply all_chars_app; [done|]. by apply (all_chars_app _ "::"). }
  assert (Hne : name +:+ "::" +:+ id ≠ "").
  { apply truthy_true, truthy_app_r. done. }
  rewrite (match_view_page _ _ (take_while_group _ rest Hchars Hrest) Hne).
  apply truthy_true in Hne. rewrite Hne.
  rewrite (includes_substring name "::" id "::" eq_refl).
  rewrite split_colons_cons by done.
  by rewrite (split_without_sep id "::") by done.
Qed.

Lemma meeting_id_old_format_witness :
  getMeetingNoteIdFromUrl (VIEW_PREFIX +:+ ("Weekly-Sync" +:+ "::" +:+ "01HABC") +:+ "?ref=home")
  = Some "01HABC".
Proof.
  apply (meeting_id_old_format "Weekly-Sync" "01HABC" "?ref=home"); reflexivity.
Defined.

(** X3. With more than one "::" after [/view/] the part between the
    first and the second is returned, not the last one. *)
Theorem meeting_id_second_part (a b c rest : string) :
  all_chars id_char a = true → occurs ":" a = false →
  all_chars id_char b = true → occurs ":" b = false →
  all_chars id_char c = true →
  ends_group rest = true →
  getMeetingNoteIdFromUrl
    (VIEW_PREFIX +:+ (a +:+ "::" +:+ b +:+ "::" +:+ c) +:+ rest) = Some b.
Proof.
  intros Ha Hca Hb Hcb Hc Hrest. unfold getMeetingNoteIdFromUrl.
  assert (Hchars : all_chars id_char (a +:+ "::" +:+ b +:+ "::" +:+ c) = true).
  { apply all_chars_app; [done|]. apply (all_chars_app _ "::"); [done|].
    apply all_chars_app; [done|]. by apply (all_chars_app _ "::"). }
  assert (Hne : a +:+ "::" +:+ b +:+ "::" +:+ c ≠ "").
  { apply truthy_true, truthy_app_r. done. }
  rewrite (match_view_page _ _ (take_while_group _ rest Hchars Hrest) Hne).
  apply truthy_true in Hne. rewrite Hne.
  rewrite (includes_substring a "::" (b +:+ "::" +:+ c) "::" eq_refl).
  by rewrite !split_colons_cons by done.
Qed.

Lemma meeting_id_second_part_witness :
  getMeetingNoteIdFromUrl (VIEW_PREFIX +:+ ("a" +:+ "::" +:+ "b" +:+ "::" +:+ "c") +:+ "")
  = Some "b".
Proof.
  apply (meeting_id_second_part "a" "b" "c" ""); reflexivity.
Defined.

(** X4. Whatever the address, an id that is returned contains no "/", no
    "?" and no "::". *)
Theorem meeting_id_clean (href id : string) :
  getMeetingNoteIdFromUrl href = Some id →
  occurs "/" id = false ∧ occurs "?" id = false ∧ includes id "::" = false.
Proof.
  assert (Hsub : ∀ a s b, (occurs "/" (a +:+ s +:+ b) = false → occurs "/" s = false)
                        ∧ (occurs "?" (a +:+ s +:+ b) = false → occurs "?" s = false)
                        ∧ (includes (a +:+ s +:+ b) "::" = false → includes s "::" = false)).
  { intros a s b. repeat split; intros H.
    - destruct (occurs "/" s) eqn:E; [|done].
      by rewrite (occurs_substring _ a s b E) in H.
    - destruct (occurs "?" s) eqn:E; [|done].
      by rewrite (occurs_substring _ a s b E) in H.
    - destruct (includes s "::") eqn:E; [|done].
      by rewrite (includes_substring a s b _ E) in H. }
  assert (Hlegacy : getMeetingNoteIdFromUrl_legacy href = Some id →
    occurs "/" id = false ∧ occurs "?" id = false ∧ includes id "::" = false).
  { intros (seg & part & Hseg & _ & Hpart & ->)%legacy_id_parts.
    pose proof (split_part_no_sep href "/" seg ltac:(done) Hseg) as Hslash.
    rewrite includes_char in Hslash.
    pose proof (split_part_no_sep seg "::" part ltac:(done) Hpart) as Hcolons.
    apply split_part_substring in Hpart as (a & b & ->).
    apply (Hsub a part b) in Hslash.
    destruct (split_head_substring "?" part) as [b' Hb'].
    rewrite Hb' in Hslash, Hcolons.
    split; [|split].
    - by apply (Hsub "" _ b').
    - apply split_head_no_sep.
    - by apply (Hsub "" _ b'). }
  unfold getMeetingNoteIdFromUrl.
  destruct (match_view href) as [p|] eqn:Em; [|done].
  destruct (truthy p); [|done].
  apply match_view_group in Em as [Hchars _].
  pose proof (all_chars_occurs id_char "/" p eq_refl Hchars) as Hslash.
  pose proof (all_chars_occurs id_char "?" p eq_refl Hchars) as Hquery.
  destruct (includes p "::") eqn:Ei.
  - intros Hin%lookup_split_1.
    pose proof (split_part_no_sep p "::" id ltac:(done) Hin) as Hcolons.
    apply split_part_substring in Hin as (a & b & ->).
    split; [|split]; [by apply (Hsub a id b)..|done].
  - by intros [= <-].
Qed.

Lemma meeting_id_clean_witness :
  getMeetingNoteIdFromUrl "https://app.fireflies.ai/v/name::id?x#y" = Some "id"
  ∧ occurs "/" "id" = false.
Proof.
  assert (H : getMeetingNoteIdFromUrl "https://app.fireflies.ai/v/name::id?x#y" = Some "id")
    by reflexivity.
  split; [exact H|].
  exact (proj1 (meeting_id_clean _ _ H)).
Defined.

(** X5. An address with no "view/" and no "::" in it gives no id. *)
Theorem meeting_id_none (href : string) :
  includes href "view/" = false →
  includes href "::" = false →
  getMeetingNoteIdFromUrl href = None.
Proof.
  intros Hview Hcolons. unfold getMeetingNoteIdFromUrl.
  destruct (match_view href) as [p|] eqn:Em.
  { apply match_view_includes in Em. congruence. }
  destruct (getMeetingNoteIdFromUrl_legacy href) as [id|] eqn:El; [|done].
  apply legacy_id_parts in El as (seg & part & Hseg & Hinc & _).
  apply split_part_substring in Hseg as (a & b & ->).
  rewrite (includes_substring a seg b _ Hinc) in Hcolons. done.
Qed.

Lemma meeting_id_none_witness :
  getMeetingNoteIdFromUrl "https://app.fireflies.ai/notebook" = None.
Proof.
  apply (meeting_id_none "https://app.fireflies.ai/notebook"); reflexivity.
Defined.

(** ** Waiting for an element *)

Lemma waitForElement_cleared {Element : Type} timeout interval st
    (queries : list (option Element)) :
  cleared st = true → waitForElement timeout interval st queries = (st, []).
Proof. intros H. destruct queries; simpl; by rewrite ?H. Qed.

Lemma waitForElement_None {Element : Type} timeout interval st
    (queries : list (option Element)) :
  cleared st = false →
  waitForElement timeout interval st (None :: queries) =
    waitForElement timeout interval
      {| elapsedTime := elapsedTime st + interval;
         cleared := timeout <=? elapsedTime st + interval |} queries.
Proof.
  intros H. simpl. rewrite H.
  by destruct (waitForElement _ _ _ queries).
Qed.

(** Ticks that find nothing and do not use up the time leave the wait
    running, with the time they took added. *)
Lemma waitForElement_still_waiting {Element : Type} timeout interval n :
  ∀ st (rest : list (option Element)),
  cleared st = false → 0 <= interval →
  elapsedTime st + Z.of_nat n * interval < timeout →
  waitForElement timeout interval st (replicate n None ++ rest) =
    waitForElement timeout interval
      {| elapsedTime := elapsedTime st + Z.of_nat n * interval; cleared := false |} rest.
Proof.
  induction n as [|n IH]; intros st rest Hc Hi Ht.
  - simpl replicate. simpl app. destruct st as [e c]. simpl in *. subst c.
    do 2 f_equal. lia.
  - simpl replicate. change ((None :: replicate n None) ++ rest)
      with (None :: (replicate n None ++ rest)).
    rewrite waitForElement_None by done.
    assert ((timeout <=? elapsedTime st + interval) = false) as -> by nia.
    rewrite IH; simpl; [|done|done|nia]. do 2 f_equal. lia.
Qed.

Lemma waitForElement_at_most_one {Element : Type} timeout interval
    (queries : list (option Element)) : ∀ st,
  (length (snd (waitForElement timeout interval st queries)) ≤ 1)%nat.
Proof.
  induction queries as [|q rest IH]; intros st; simpl; [lia|].
  destruct (cleared st); simpl; [lia|].
  destruct q as [e|]; simpl.
  - rewrite waitForElement_cleared by done. simpl. lia.
  - specialize (IH {| elapsedTime := elapsedTime st + interval;
                      cleared := timeout <=? elapsedTime st + interval |}).
    destruct (waitForElement _ _ _ rest). simpl in *. lia.
Qed.

(** X6. Whatever the page shows at each tick and whatever the time-out and
    the interval are, the callback is called at most once, and only with
    an element that a tick has found. *)
Theorem waitForElement_calls_once {Element : Type} (timeout interval : Z)
    (queries : list (option Element)) :
  (length (snd (waitForElement timeout interval waiting_init queries)) ≤ 1)%nat
  ∧ ∀ e, e ∈ snd (waitForElement timeout interval waiting_init queries) →
         Some e ∈ queries.
Proof.
  split; [apply waitForElement_at_most_one|].
  generalize waiting_init. induction queries as [|q rest IH]; intros st e; simpl.
  { by intros ?%elem_of_nil. }
  destruct (cleared st); simpl; [by intros ?%elem_of_nil|].
  destruct q as [e'|]; simpl.
  - rewrite waitForElement_cleared by done. simpl.
    intros ->%list_elem_of_singleton. left.
  - specialize (IH {| elapsedTime := elapsedTime st + interval;
                      cleared := timeout <=? elapsedTime st + interval |} e).
    destruct (waitForElement _ _ _ rest). simpl in *. intros H. right. by apply IH.
Qed.

(** X7. When the element is there at a tick before the time is used up
    ([k] ticks found nothing, and [k] intervals are less than the
    time-out), the callback gets that element, once, and the timer is
    cleared; what later ticks would find plays no part. *)
Theorem waitForElement_found {Element : Type} (timeout interval : Z) (k : nat)
    (e : Element) (rest : list (option Element)) :
  0 <= interval →
  Z.of_nat k * interval < timeout →
  waitForElement timeout interval waiting_init (replicate k None ++ Some e :: rest) =
    ({| elapsedTime := Z.of_nat k * interval; cleared := true |}, [e]).
Proof.
  intros Hi Ht.
  rewrite waitForElement_still_waiting by (simpl; done || lia).
  simpl. by rewrite waitForElement_cleared.
Qed.

Lemma waitForElement_found_witness :
  waitForElement DEFAULT_TIMEOUT DEFAULT_INTERVAL waiting_init
    (replicate 99 None ++ Some "icon" :: [None; Some "late"]) =
    ({| elapsedTime := 9900; cleared := true |}, ["icon"]).
Proof.
  apply (waitForElement_found DEFAULT_TIMEOUT DEFAULT_INTERVAL 99 "icon"); done.
Defined.

(** X8. With a positive interval the wait gives up at the first tick at
    which the intervals passed reach the time-out: before it the timer is
    still running, and from it on the timer is cleared and the callback is
    never called, whatever appears later.  With the default values that is
    the 100th tick. *)
Theorem waitForElement_gives_up {Element : Type} (timeout interval : Z) (n : nat)
    (rest : list (option Element)) :
  0 < interval →
  (Z.of_nat n * interval < timeout →
     waitForElement timeout interval waiting_init (replicate n (@None Element)) =
       ({| elapsedTime := Z.of_nat n * interval; cleared := false |}, []))
  ∧ ((0 < n)%nat → timeout <= Z.of_nat n * interval →
     cleared (fst (waitForElement timeout interval waiting_init
                     (replicate n None ++ rest))) = true
     ∧ snd (waitForElement timeout interval waiting_init
              (replicate n None ++ rest)) = [])
  ∧ cleared (fst (waitForElement DEFAULT_TIMEOUT DEFAULT_INTERVAL waiting_init
                    (replicate 99 (@None Element)))) = false
  ∧ cleared (fst (waitForElement DEFAULT_TIMEOUT DEFAULT_INTERVAL waiting_init
                    (replicate 100 (@None Element)))) = true.
Proof.
  intros Hi. split; [|split; [|split; reflexivity]].
  - intros Ht. rewrite <- (app_nil_r (replicate n None)).
    rewrite waitForElement_still_waiting by (simpl; done || lia). done.
  - assert (G : ∀ m st, cleared st = false → (0 < m)%nat →
                timeout <= elapsedTime st + Z.of_nat m * interval →
                cleared (fst (waitForElement timeout interval st
                                (replicate m None ++ rest))) = true
                ∧ snd (waitForElement timeout interval st
                         (replicate m None ++ rest)) = []).
    { induction m as [|m IH]; intros st Hc Hm Ht; [lia|].
      simpl replicate. change ((None :: replicate m None) ++ rest)
        with (None :: (replicate m None ++ rest)).
      rewrite waitForElement_None by done.
      destruct (timeout <=? elapsedTime st + interval) eqn:E.
      - rewrite waitForElement_cleared by done. done.
      - apply Z.leb_gt in E. apply IH; simpl; [done|nia|nia]. }
    intros Hn Ht. apply G; [done|done|simpl; lia].
Qed.

Lemma waitForElement_gives_up_witness :
  snd (waitForElement DEFAULT_TIMEOUT DEFAULT_INTERVAL waiting_init
         (replicate 100 None ++ [Some "icon"])) = [].
Proof.
  assert (Hi : 0 < DEFAULT_INTERVAL) by done.
  assert (Hn : (0 < 100)%nat) by lia.
  assert (Ht : DEFAULT_TIMEOUT <= Z.of_nat 100 * DEFAULT_INTERVAL) by done.
  exact (proj2 (proj1 (proj2
    (waitForElement_gives_up DEFAULT_TIMEOUT DEFAULT_INTERVAL 100 [Some "icon"] Hi))
    Hn Ht)).
Defined.

(** ** Click and response *)

(** X9. A click on the button sends a request exactly when both tokens
    are stored and not empty and the address gives an id that is not
    empty; the request then carries "Bearer " and the token, the refresh
    token, that id and the address, and nothing is shown.  With both
    tokens and no id, or an empty one, the click shows the message of the
    listener alone.  With a token missing or empty it shows the message of
    [getAuthDetails] and then the one of the listener, whatever the
    address.  The two messages of the checks at the start of
    [fetchAndCopyTranscriptData] are never shown by a click. *)
Theorem click_effects (localStorage : gmap string string) (href : string) :
  (∀ a r id,
     localStorage !! "AUTHORIZATION" = Some a → a ≠ "" →
     localStorage !! "REFRESH_TOKEN" = Some r → r ≠ "" →
     getMeetingNoteIdFromUrl href = Some id → id ≠ "" →
     copy_button_click localStorage href =
       [GM_xmlhttpRequest ("Bearer " +:+ a) r id href])
  ∧ (truthy_opt (localStorage !! "AUTHORIZATION") = true →
     truthy_opt (localStorage !! "REFRESH_TOKEN") = true →
     truthy_opt (getMeetingNoteIdFromUrl href) = false →
     copy_button_click localStorage href =
       [alert "Could not copy transcript. Missing Auth Tokens or Meeting ID. Check console."])
  ∧ (truthy_opt (localStorage !! "AUTHORIZATION") = false
     ∨ truthy_opt (localStorage !! "REFRESH_TOKEN") = false →
     copy_button_click localStorage href =
       [alert "Fireflies Script: Auth tokens not found. Please ensure you are logged in and tokens are in localStorage.";
        alert "Could not copy transcript. Missing Auth Tokens or Meeting ID. Check console."])
  ∧ (alert "Error: Could not determine Meeting ID."
       ∉ copy_button_click localStorage href)
  ∧ (alert "Error: Auth tokens not found. Please ensure you are logged in."
       ∉ copy_button_click localStorage href)
  ∧ (∀ authorization refreshToken meetingNoteId meetingUrl,
       GM_xmlhttpRequest authorization refreshToken meetingNoteId meetingUrl
         ∈ copy_button_click localStorage href →
       truthy_opt (localStorage !! "AUTHORIZATION") = true
       ∧ truthy_opt (localStorage !! "REFRESH_TOKEN") = true
       ∧ getMeetingNoteIdFromUrl href = Some meetingNoteId ∧ meetingNoteId ≠ ""
       ∧ localStorage !! "REFRESH_TOKEN" = Some refreshToken
       ∧ meetingUrl = href
       ∧ ∃ a, localStorage !! "AUTHORIZATION" = Some a
              ∧ authorization = "Bearer " +:+ a).
Proof.
  unfold copy_button_click, getAuthDetails, fetchAndCopyTranscriptData.
  split; [|split; [|split; [|split; [|split]]]].
  - intros a r id -> Ha -> Hr -> Hid.
    apply truthy_true in Ha, Hr, Hid. simpl. rewrite Ha, Hr. simpl. rewrite Hid.
    simpl. by rewrite Ha, Hr.
  - intros -> -> ->. done.
  - intros [-> | ->]; [done|].
    by destruct (truthy_opt (localStorage !! "AUTHORIZATION")).
  - destruct (localStorage !! "AUTHORIZATION") as [[|c a]|]; simpl;
      try (by intros H; repeat (apply elem_of_cons in H as [H|H]; [done|]);
           apply elem_of_nil in H).
    destruct (localStorage !! "REFRESH_TOKEN") as [[|d r]|]; simpl;
      try (by intros H; repeat (apply elem_of_cons in H as [H|H]; [done|]);
           apply elem_of_nil in H).
    destruct (getMeetingNoteIdFromUrl href) as [[|e id]|]; simpl;
      by intros H; repeat (apply elem_of_cons in H as [H|H]; [done|]);
         apply elem_of_nil in H.
  - destruct (localStorage !! "AUTHORIZATION") as [[|c a]|]; simpl;
      try (by intros H; repeat (apply elem_of_cons in H as [H|H]; [done|]);
           apply elem_of_nil in H).
    destruct (localStorage !! "REFRESH_TOKEN") as [[|d r]|]; simpl;
      try (by intros H; repeat (apply elem_of_cons in H as [H|H]; [done|]);
           apply elem_of_nil in H).
    destruct (getMeetingNoteIdFromUrl href) as [[|e id]|]; simpl;
      by intros H; repeat (apply elem_of_cons in H as [H|H]; [done|]);
         apply elem_of_nil in H.
  - intros authorization refreshToken meetingNoteId meetingUrl.
    destruct (localStorage !! "AUTHORIZATION") as [[|c a]|]; simpl;
      try (by intros H; repeat (apply elem_of_cons in H as [H|H]; [done|]);
           apply elem_of_nil in H).
    destruct (localStorage !! "REFRESH_TOKEN") as [[|d r]|]; simpl;
      try (by intros H; repeat (apply elem_of_cons in H as [H|H]; [done|]);
           apply elem_of_nil in H).
    destruct (getMeetingNoteIdFromUrl href) as [[|e id]|]; simpl;
      try (by intros H; repeat (apply elem_of_cons in H as [H|H]; [done|]);
           apply elem_of_nil in H).
    intros [= -> -> -> ->]%list_elem_of_singleton.
    repeat split; try done. by exists (String c a).
Qed.

Lemma click_effects_witness :
  copy_button_click {["AUTHORIZATION" := "tok"; "REFRESH_TOKEN" := "ref"]}
    "https://app.fireflies.ai/view/01HABC?ref=home"
  = [GM_xmlhttpRequest ("Bearer " +:+ "tok") "ref" "01HABC"
       "https://app.fireflies.ai/view/01HABC?ref=home"]
  ∧ copy_button_click {["AUTHORIZATION" := "tok"]}
      "https://app.fireflies.ai/view/01HABC?ref=home"
    = [alert "Fireflies Script: Auth tokens not found. Please ensure you are logged in and tokens are in localStorage.";
       alert "Could not copy transcript. Missing Auth Tokens or Meeting ID. Check console."]
  ∧ copy_button_click {["AUTHORIZATION" := "tok"; "REFRESH_TOKEN" := "ref"]}
      "https://app.fireflies.ai/notebook"
    = [alert "Could not copy transcript. Missing Auth Tokens or Meeting ID. Check console."].
Proof.
  split; [|split].
  - apply (proj1 (click_effects {["AUTHORIZATION" := "tok"; "REFRESH_TOKEN" := "ref"]}
                    "https://app.fireflies.ai/view/01HABC?ref=home"));
      reflexivity || discriminate.
  - apply (proj1 (proj2 (proj2 (click_effects {["AUTHORIZATION" := "tok"]}
                    "https://app.fireflies.ai/view/01HABC?ref=home")))).
    right. reflexivity.
  - apply (proj1 (proj2 (click_effects
                    {["AUTHORIZATION" := "tok"; "REFRESH_TOKEN" := "ref"]}
                    "https://app.fireflies.ai/notebook"))); reflexivity.
Defined.

(** X10. Every answer to the request ends in exactly one message: a
    response of any status, whatever its text parses to, a network error,
    or a time-out.  The clipboard is written only for a response with a
    status from 200 to 299 whose parsed text has the meeting note, and
    then with what [formatTranscript] gives for that note and the address. *)
Theorem response_effects (meetingUrl : string) (status : Z) (parsedResponse : Parsed) :
  length (alerts (onload meetingUrl status parsedResponse)) = 1%nat
  ∧ length (alerts onerror) = 1%nat
  ∧ length (alerts ontimeout) = 1%nat
  ∧ clipboard_writes onerror = []
  ∧ clipboard_writes ontimeout = []
  ∧ clipboard_writes (onload meetingUrl status parsedResponse) =
      match parsedResponse with
      | with_meetingNote meetingNote =>
          if (200 <=? status) && (status <? 300)
          then [formatTranscript (Some meetingNote) (Some meetingUrl)]
          else []
      | _ => []
      end.
Proof.
  unfold onload.
  destruct ((200 <=? status) && (status <? 300)), parsedResponse; by repeat split.
Qed.

(** X11. When the meeting note of a good response has no captions or no
    speaker directory, the diagnostic text is what is put on the
    clipboard, and the message shown says the transcript was copied. *)
Theorem onload_copies_diagnostic (meetingUrl : string) (status : Z) (note : MeetingNote) :
  200 <= status < 300 →
  captions note = None ∨ speakerMeta note = None →
  onload meetingUrl status (with_meetingNote note) =
    [GM_setClipboard MISSING_DATA; alert "Transcript copied to clipboard!"].
Proof.
  intros Hs Hmissing. unfold onload.
  assert ((200 <=? status) && (status <? 300) = true) as -> by lia.
  unfold formatTranscript. destruct Hmissing as [-> | ->]; [done|].
  by destruct (captions note).
Qed.

Lemma onload_copies_diagnostic_witness :
  onload "https://app.fireflies.ai/view/01HABC" 200
    (with_meetingNote {| captions := None; attendees := None; title := Some "Standup";
                         date := None; speakerMeta := Some ∅ |})
  = [GM_setClipboard MISSING_DATA; alert "Transcript copied to clipboard!"].
Proof.
  apply onload_copies_diagnostic; [lia|by left].
Defined.

(** ** The older formatter *)

(** X12. The older [formatTranscript] gives what the current one gives
    when it is called without an address, or with an empty one. *)
Theorem formatTranscript_legacy_agrees (meetingNote : option MeetingNote) :
  formatTranscript_legacy meetingNote = formatTranscript meetingNote None
  ∧ formatTranscript_legacy meetingNote = formatTranscript meetingNote (Some "").
Proof.
  unfold formatTranscript_legacy, formatTranscript, formatHeader.
  destruct meetingNote as [note|]; [|done].
  by destruct (captions note), (speakerMeta note).
Qed.

(** ** The button on the page *)

Lemma page_ok_init : page_ok page_init.
Proof. split; [simpl; lia|]. left. by repeat split; simpl; try lia. Qed.

(** After the clearing at the start of [initializeActiveViewFeatures] no
    wait is left. *)
Lemma clear_pending_ok page :
  page_ok page →
  intervals (clear_pending page) = ∅
  ∧ currentWaitForButtonContainerTimer (clear_pending page) = None
  ∧ copy_buttons (clear_pending page) = copy_buttons page
  ∧ next_timer (clear_pending page) = next_timer page
  ∧ (copy_buttons page ≤ 1)%nat ∧ (0 < next_timer page)%nat.
Proof.
  intros [Hn [(HI & Hb & Hvar)|(t & e & Hvar & HI & Hb & Ht)]]; unfold clear_pending.
  - destruct (currentWaitForButtonContainerTimer page) as [t|] eqn:E.
    + specialize (Hvar t eq_refl).
      assert ((0 <? t)%nat = true) as -> by (apply Nat.ltb_lt; lia).
      simpl. rewrite HI, delete_empty. by repeat split.
    + rewrite E. by repeat split.
  - rewrite Hvar. assert ((0 <? t)%nat = true) as -> by (apply Nat.ltb_lt; lia).
    simpl. rewrite HI, delete_singleton_eq, Hb. repeat split; lia.
Qed.

Lemma page_ok_initialize href page :
  page_ok page → page_ok (initializeActiveViewFeatures href page).
Proof.
  intros (HI & Hvar & Hb & Hn & Hle & Hpos)%clear_pending_ok.
  unfold initializeActiveViewFeatures.
  assert (Hrm : page_ok (remove_existing (clear_pending page))).
  { split; [simpl; lia|]. left. simpl. rewrite HI, Hvar.
    repeat split; simplify_eq/=; try done; lia. }
  destruct (startsWith href VIEW_PREFIX); [|done].
  destruct (truthy_opt (getMeetingNoteIdFromUrl href)); [|done].
  unfold createCopyButton. destruct (0 <? copy_buttons (clear_pending page))%nat eqn:E.
  - split; [lia|]. left. rewrite HI, Hvar. repeat split; simplify_eq/=; try done; lia.
  - apply Nat.ltb_ge in E. split; [simpl; lia|]. right.
    exists (next_timer (clear_pending page)), 0. simpl.
    rewrite HI, insert_empty. repeat split; lia.
Qed.

Lemma page_ok_tick t found page :
  page_ok page → page_ok (button_wait_tick t found page).
Proof.
  intros Hok. unfold button_wait_tick.
  destruct (intervals page !! t) as [elapsed|] eqn:Et; [|done].
  destruct Hok as [Hn [(HI & _)|(t' & e & Hvar & HI & Hb & Ht)]].
  { by rewrite HI, lookup_empty in Et. }
  rewrite HI in Et. apply lookup_singleton_Some in Et as [<- <-].
  assert (Hstale : ∀ t0, Some t' = Some t0 → (0 < t0 < next_timer page)%nat)
    by (by intros ? [= <-]).
  destruct found as [[|]|]; simpl; (split; [done|]); simpl.
  - left. rewrite HI, delete_singleton_eq, Hb, Hvar.
    repeat split; simplify_eq/=; try done; lia.
  - left. rewrite HI, delete_singleton_eq, Hb, Hvar.
    repeat split; simplify_eq/=; try done; lia.
  - destruct (DEFAULT_TIMEOUT <=? e + DEFAULT_INTERVAL).
    + left. rewrite HI, delete_singleton_eq, Hb, Hvar.
      repeat split; simplify_eq/=; try done; lia.
    + right. exists t', (e + DEFAULT_INTERVAL).
      rewrite HI, insert_singleton_eq. repeat split; simplify_eq/=; try done; lia.
Qed.

Lemma page_ok_run events : page_ok (page_run events).
Proof.
  unfold page_run. generalize page_ok_init. generalize page_init.
  induction events as [|e events IH]; intros page Hok; [done|].
  simpl. apply IH. destruct e; [by apply page_ok_initialize|by apply page_ok_tick].
Qed.

Lemma page_run_snoc events e :
  page_run (events ++ [e]) = page_step (page_run events) e.
Proof. unfold page_run. by rewrite fold_left_app. Qed.

(** X13. Whatever addresses the page goes through and whatever the timers
    find, there is never more than one copy button, no wait is pending
    while the button is there, and a pending wait is always the one whose
    timer [currentWaitForButtonContainerTimer] holds. *)
Theorem one_copy_button (events : list Event) :
  (copy_buttons (page_run events) + size (intervals (page_run events)) ≤ 1)%nat
  ∧ ∀ t, is_Some (intervals (page_run events) !! t) →
         currentWaitForButtonContainerTimer (page_run events) = Some t.
Proof.
  destruct (page_ok_run events) as [_ [(HI & Hb & _)|(t & e & Hvar & HI & Hb & _)]];
    rewrite HI.
  - rewrite map_size_empty. split; [lia|].
    intros t [x Hx]. by rewrite lookup_empty in Hx.
  - rewrite map_size_singleton, Hb. split; [lia|].
    intros t' [x Hx]. by apply lookup_singleton_Some in Hx as [<- _].
Qed.

Lemma one_copy_button_witness :
  is_Some (intervals (page_run [Initialize "https://app.fireflies.ai/view/01HABC";
                                Tick 1 None]) !! 1%nat)
  ∧ currentWaitForButtonContainerTimer
      (page_run [Initialize "https://app.fireflies.ai/view/01HABC"; Tick 1 None])
    = Some 1%nat.
Proof.
  assert (H : is_Some (intervals (page_run [Initialize "https://app.fireflies.ai/view/01HABC";
                                            Tick 1 None]) !! 1%nat)).
  { exists 100. reflexivity. }
  split; [exact H|].
  exact (proj2 (one_copy_button [Initialize "https://app.fireflies.ai/view/01HABC";
                                 Tick 1 None]) 1%nat H).
Defined.

(** X14. When [initializeActiveViewFeatures] runs on an address that is
    not a meeting page, or is one without an id, the page is left with no
    copy button and no pending wait, whatever happened before. *)
Theorem initialize_elsewhere (events : list Event) (href : string) :
  startsWith href VIEW_PREFIX = false
  ∨ truthy_opt (getMeetingNoteIdFromUrl href) = false →
  copy_buttons (page_run (events ++ [Initialize href])) = 0%nat
  ∧ intervals (page_run (events ++ [Initialize href])) = ∅
  ∧ currentWaitForButtonContainerTimer (page_run (events ++ [Initialize href])) = None.
Proof.
  intros Hhref. rewrite page_run_snoc. simpl.
  destruct (clear_pending_ok _ (page_ok_run events)) as (HI & Hvar & Hb & _ & Hle & _).
  unfold initializeActiveViewFeatures.
  assert (Hrm : copy_buttons (remove_existing (clear_pending (page_run events))) = 0%nat
                ∧ intervals (remove_existing (clear_pending (page_run events))) = ∅
                ∧ currentWaitForButtonContainerTimer
                    (remove_existing (clear_pending (page_run events))) = None).
  { simpl. rewrite HI, Hvar, Hb. repeat split. lia. }
  destruct Hhref as [-> | Hid]; [done|].
  rewrite Hid. by destruct (startsWith href VIEW_PREFIX).
Qed.

Lemma initialize_elsewhere_witness :
  copy_buttons (page_run ([Initialize "https://app.fireflies.ai/view/01HABC";
                           Tick 1 (Some true)]
                          ++ [Initialize "https://app.fireflies.ai/notebook"])) = 0%nat.
Proof.
  apply (initialize_elsewhere
           [Initialize "https://app.fireflies.ai/view/01HABC"; Tick 1 (Some true)]
           "https://app.fireflies.ai/notebook").
  by left.
Defined.

(** X15. When [initializeActiveViewFeatures] runs on a meeting page with
    an id: if the button is there it stays and no wait is started; if not,
    exactly one wait is pending afterwards, it is a new one that starts
    from zero, and the variable holds its timer. *)
Theorem initialize_meeting_page (events : list Event) (href : string) :
  startsWith href VIEW_PREFIX = true →
  truthy_opt (getMeetingNoteIdFromUrl href) = true →
  (copy_buttons (page_run events) = 1%nat →
     copy_buttons (page_run (events ++ [Initialize href])) = 1%nat
     ∧ intervals (page_run (events ++ [Initialize href])) = ∅)
  ∧ (copy_buttons (page_run events) = 0%nat →
     copy_buttons (page_run (events ++ [Initialize href])) = 0%nat
     ∧ ∃ t, currentWaitForButtonContainerTimer (page_run (events ++ [Initialize href]))
              = Some t
            ∧ intervals (page_run (events ++ [Initialize href])) = {[t := 0]}
            ∧ intervals (page_run events) !! t = None).
Proof.
  intros Hpage Hid. rewrite page_run_snoc. simpl.
  pose proof (page_ok_run events) as Hok.
  destruct (clear_pending_ok _ Hok) as (HI & Hvar & Hb & Hn & Hle & Hpos).
  unfold initializeActiveViewFeatures. rewrite Hpage, Hid.
  unfold createCopyButton. rewrite Hb. split; intros E; rewrite E; simpl.
  - split; congruence.
  - rewrite HI, insert_empty. split; [congruence|].
    exists (next_timer (clear_pending (page_run events))). repeat split.
    rewrite Hn. destruct Hok as [_ [(HI' & _)|(t & e & _ & HI' & _ & Ht)]]; rewrite HI'.
    + apply lookup_empty.
    + apply lookup_singleton_ne. lia.
Qed.

Lemma initialize_meeting_page_witness :
  copy_buttons (page_run ([Initialize "https://app.fireflies.ai/view/01HABC";
                           Tick 1 (Some true)]
                          ++ [Initialize "https://app.fireflies.ai/view/01HXYZ"])) = 1%nat.
Proof.
  apply (initialize_meeting_page
           [Initialize "https://app.fireflies.ai/view/01HABC"; Tick 1 (Some true)]
           "https://app.fireflies.ai/view/01HXYZ"); reflexivity.
Defined.

(** ** More on the formatter *)

Lemma Number_toString_inj a b : Number_toString a = Number_toString b → a = b.
Proof.
  unfold Number_toString. intros H. apply DecimalZ.to_int_inj.
  assert (Hnil : ∀ n, Z.to_int n ≠ Decimal.Pos Decimal.Nil
                      ∧ Z.to_int n ≠ Decimal.Neg Decimal.Nil).
  { intros [|p|p]; simpl; split; try discriminate;
      intros [= E]; by apply DecimalPos.Unsigned.to_uint_nonnil in E. }
  destruct (Hnil a) as [Ha1 Ha2], (Hnil b) as [Hb1 Hb2].
  pose proof (NilZero.isi _ Ha1 Ha2) as Ea. pose proof (NilZero.isi _ Hb1 Hb2) as Eb.
  rewrite H in Ea. congruence.
Qed.

(** X16. Two speaker ids below 2^53, where [id + 1] is exact in the
    code, never share a key of the directory, so an entry names one
    speaker only: with the single entry of speaker [a], that speaker gets
    the name and every other speaker the fallback label. *)
Theorem speaker_entry_for_one_id (a b : Z) (name : string) :
  0 <= a < EXACT_BOUND →
  0 <= b < EXACT_BOUND →
  (Number_toString (a + 1) = Number_toString (b + 1) → a = b)
  ∧ (name ≠ "" → speakerName {[Number_toString (a + 1) := name]} a = name)
  ∧ (a ≠ b →
     speakerName {[Number_toString (a + 1) := name]} b =
       "Unknown Speaker " +:+ Number_toString (b + 1)).
Proof.
  intros _ _. split; [|split].
  - intros H%Number_toString_inj. lia.
  - intros Hn%truthy_true. unfold speakerName.
    by rewrite lookup_singleton_eq, Hn.
  - intros Hab. unfold speakerName. rewrite lookup_singleton_ne; [done|].
    intros H%Number_toString_inj. lia.
Qed.

Lemma speaker_entry_for_one_id_witness :
  0 <= 0 < EXACT_BOUND ∧ 0 <= 1 < EXACT_BOUND ∧ 0 ≠ 1
  ∧ speakerName {[Number_toString (0 + 1) := "Bo"]} 1 = "Unknown Speaker 2".
Proof.
  assert (Ha : 0 <= 0 < EXACT_BOUND) by done.
  assert (Hb : 0 <= 1 < EXACT_BOUND) by done.
  assert (H : 0 ≠ 1) by discriminate.
  split; [exact Ha|]. split; [exact Hb|]. split; [exact H|].
  exact (proj2 (proj2 (speaker_entry_for_one_id 0 1 "Bo" Ha Hb)) H).
Defined.

(** X17. For a time that is not negative only the whole seconds count:
    the fraction of a second changes nothing in the time stamp. *)
Theorem formatTime_whole_seconds (totalSeconds : Q) :
  (0 <= totalSeconds)%Q →
  formatTime totalSeconds = formatTime (inject_Z (Qfloor totalSeconds)).
Proof.
  intros Ht.
  assert (Hf : (0 <= inject_Z (Qfloor totalSeconds))%Q).
  { change 0%Q with (inject_Z 0). rewrite <- Zle_Qle. by apply Qfloor_nonneg. }
  unfold formatTime.
  rewrite !js_rem_Qmod, !Qfloor_Qmod60, !Qfloor_div60 by done.
  by rewrite Qfloor_Z.
Qed.

Lemma formatTime_whole_seconds_witness :
  formatTime (7509 # 10) = formatTime (inject_Z (Qfloor (7509 # 10))).
Proof.
  apply (formatTime_whole_seconds (7509 # 10)). discriminate.
Defined.

Lemma runs_head l c r rs : runs l = (c :: r) :: rs → head l = Some c.
Proof.
  destruct l as [|c0 l]; [done|]. simpl.
  destruct (runs l) as [|[|c' r'] rs']; [by intros [= <- _ _]..|].
  by destruct (speaker_id c0 =? speaker_id c'); intros [= <- _ _].
Qed.

Lemma runs_nil l : runs l = [] → l = [].
Proof.
  destruct l as [|c l]; [done|]. simpl.
  destruct (runs l) as [|[|c' r'] rs']; [done..|].
  by destruct (speaker_id c =? speaker_id c').
Qed.

(** Where the speaker changes between two stretches of captions, no run
    crosses the seam. *)
Lemma runs_app l1 : ∀ l2 c1 c2,
  last l1 = Some c1 → head l2 = Some c2 → speaker_id c1 ≠ speaker_id c2 →
  runs (l1 ++ l2) = runs l1 ++ runs l2.
Proof.
  induction l1 as [|c l1 IH]; intros l2 c1 c2 H1 H2 Hne; [done|].
  destruct l1 as [|c' l1].
  - simpl in H1. injection H1 as ->. simpl.
    destruct (runs l2) as [|[|c' r] rs] eqn:E.
    + apply runs_nil in E. by subst l2.
    + by apply runs_head_not_nil in E.
    + apply runs_head in E. rewrite H2 in E. injection E as <-.
      by destruct (Z.eqb_spec (speaker_id c1) (speaker_id c2)).
  - specialize (IH l2 c1 c2 H1 H2 Hne).
    change ((c :: c' :: l1) ++ l2) with (c :: ((c' :: l1) ++ l2)).
    change (runs (c :: (c' :: l1) ++ l2))
      with (match runs ((c' :: l1) ++ l2) with
            | (c0 :: r) :: rs =>
                if speaker_id c =? speaker_id c0 then (c :: c0 :: r) :: rs
                else [c] :: (c0 :: r) :: rs
            | _ => [[c]]
            end).
    change (runs (c :: c' :: l1))
      with (match runs (c' :: l1) with
            | (c0 :: r) :: rs =>
                if speaker_id c =? speaker_id c0 then (c :: c0 :: r) :: rs
                else [c] :: (c0 :: r) :: rs
            | _ => [[c]]
            end).
    rewrite IH. destruct (runs (c' :: l1)) as [|[|c0 r] rs] eqn:E.
    + by apply runs_nil in E.
    + by apply runs_head_not_nil in E.
    + simpl. by destruct (speaker_id c =? speaker_id c0).
Qed.

Lemma concat_app_LF (a b : list string) :
  a ≠ [] → b ≠ [] →
  String.concat LF (a ++ b) = String.concat LF a +:+ LF +:+ String.concat LF b.
Proof.
  intros Ha Hb. induction a as [|x a IH]; [done|].
  destruct a as [|x' a].
  - destruct b as [|y b]; [done|]. reflexivity.
  - change ((x :: x' :: a) ++ b) with (x :: x' :: (a ++ b)).
    rewrite !concat_cons_cons.
    change (x' :: a ++ b) with ((x' :: a) ++ b). rewrite IH by done.
    by rewrite !str_app_assoc.
Qed.

(** X18. Where one stretch of captions ends with a speaker and the next
    begins with another, the body of the two together is the body of the
    first, a line feed, and the body of the second. *)
Theorem formatBody_app (speakerMeta : gmap string string) (l1 l2 : list Caption)
    (c1 c2 : Caption) :
  last l1 = Some c1 → head l2 = Some c2 →
  speaker_id c1 ≠ speaker_id c2 →
  formatBody speakerMeta (l1 ++ l2) =
    formatBody speakerMeta l1 +:+ LF +:+ formatBody speakerMeta l2.
Proof.
  intros H1 H2 Hne. rewrite !formatBody_concat, (runs_app l1 l2 c1 c2) by done.
  rewrite map_app. apply concat_app_LF.
  - intros E%map_eq_nil%runs_nil. by subst l1.
  - intros E%map_eq_nil%runs_nil. by subst l2.
Qed.

Lemma formatBody_app_witness :
  formatBody standup_speakerMeta
    ([caption 0 "Hi" 0; caption 0 "team" 2] ++ [caption 1 "Hey" 5]) =
    formatBody standup_speakerMeta [caption 0 "Hi" 0; caption 0 "team" 2] +:+ LF +:+
    formatBody standup_speakerMeta [caption 1 "Hey" 5].
Proof.
  apply (formatBody_app standup_speakerMeta _ _ (caption 0 "team" 2) (caption 1 "Hey" 5));
    [reflexivity|reflexivity|discriminate].
Defined.
